(** * ConfigMap synchronisation controller (cm_syncer.py)

    A shallow embedding of [sync_configmap_data] and
    [watch_source_configmap].  The two functions talk to the outside
    through four channels: the logging module, the patch call of the
    CoreV1 client, the watch stream, and [time.sleep].  Each channel is a
    trace in the state of a small state-and-exception monad; the answers of
    the outside (what a patch call returns, what a stream yields and how it
    ends, whether the client can be built) are inputs. *)

From Stdlib Require Import ZArith Lia.
From stdpp Require Import base gmap strings list.

Local Open Scope string_scope.
Local Open Scope Z_scope.
Local Open Scope list_scope.
Local Open Scope stdpp_scope.

(** ** Data *)

(** The exceptions the source distinguishes in its [except] clauses.
    [MaxRetryError] is urllib3's, the one a lost connection raises;
    [AttributeError] is what a name that a module does not define raises;
    [OtherException] stands for every other subclass of [Exception]. *)
Inductive Exn : Type :=
  | ApiException (status : Z)
  | MaxRetryError
  | AttributeError
  | OtherException.

(** One entry of [TARGET_CONFIGMAPS]: the dict with keys ['name'] and
    ['namespace'], read into [target_name] and [target_ns]. *)
Record Target : Type := mkTarget {
  target_name : string;
  target_ns : string
}.

(** The configuration block at the top of the file. *)
Definition SOURCE_CONFIGMAP_NAME : string := "source-configmap".
Definition SOURCE_CONFIGMAP_NAMESPACE : string := "default".
Definition TARGET_CONFIGMAPS : list Target :=
  [ mkTarget "config-1" "dev"; mkTarget "config-2" "stage" ].

(** The payload [{"data": source_data}] of a patch call. *)
Record Body : Type := mkBody {
  body_data : gmap string string
}.

(** What the watch stream yields: [event['type']] and [event['object']],
    of which the loop reads [metadata.name], [metadata.resource_version]
    and [data] (which is [None] for a ConfigMap without data). *)
Record Metadata : Type := mkMetadata {
  name : string;
  resource_version : option string
}.

Record ConfigMapObj : Type := mkObj {
  metadata : Metadata;
  data : option (gmap string string)
}.

Record Event : Type := mkEvent {
  type : string;
  object : ConfigMapObj
}.

(** One call of [w.stream(...)]: the events it yields, and how the
    iteration ends, by exhaustion ([None]: the server closed the session
    after [timeout_seconds]) or by an exception raised from the iterator. *)
Record Session : Type := mkSession {
  events : list Event;
  termination : option Exn
}.

(** ** Logging *)

Inductive Level : Type := DEBUG | INFO | WARNING | ERROR | CRITICAL.

(** One constructor per logging call of the source, with the values its
    format string interpolates. *)
Inductive Msg : Type :=
  | SourceDataEmpty
  | SyncingTo (n : nat)
  | SyncedTo (ns nm : string)
  | TargetNotFound (ns nm : string)
  | PatchFailed (ns nm : string) (e : Exn)
  | SyncUnexpected (e : Exn)
  | ConfigLoaded
  | InitFailed (e : Exn)
  | StartingWatch
  | SourceDeleted (cm_name : string)
  | IgnoredEventType (event_type : string)
  | WatchApiException (e : Exn)
  | WatchMaxRetry (e : Exn)
  | WatchUnexpected (e : Exn)
  | Disconnected (backoff : Z).

Definition LogRecord : Type := Level * Msg.

(** ** The client and the state *)

(** A recorded call of [core_v1.patch_namespaced_config_map]. *)
Record PatchCall : Type := mkCall {
  call_name : string;
  call_namespace : string;
  call_body : Body
}.

(** [core_v1]: the one method the source calls.  It acts on the remote
    store [W] and either returns ([None]) or raises. *)
Class CoreV1Api (W : Type) : Type := {
  patch_namespaced_config_map : string -> string -> Body -> W -> option Exn * W
}.

(** The state the program runs in: the remote store, the traces of its
    outward calls, and the two local variables of
    [watch_source_configmap] that outlive a loop iteration. *)
Record Sys (W : Type) : Type := mkSys {
  world : W;
  log : list LogRecord;
  patches : list PatchCall;
  opens : list (option string);
  sleeps : list Z;
  var_resource_version : option string;
  var_backoff_time : Z
}.

Arguments mkSys {W}.
Arguments world {W}.
Arguments log {W}.
Arguments patches {W}.
Arguments opens {W}.
Arguments sleeps {W}.
Arguments var_resource_version {W}.
Arguments var_backoff_time {W}.

(** ** State and exception monad *)

Inductive Res (A : Type) : Type :=
  | Val (a : A)
  | Raise (e : Exn).

Arguments Val {A}.
Arguments Raise {A}.

Definition M (W A : Type) : Type := Sys W -> Res A * Sys W.

Section Monad.
Context {W : Type}.

Definition ret {A} (a : A) : M W A := fun s => (Val a, s).

Definition bind {A B} (m : M W A) (k : A -> M W B) : M W B :=
  fun s =>
    match m s with
    | (Val a, s') => k a s'
    | (Raise e, s') => (Raise e, s')
    end.

Definition raise {A} (e : Exn) : M W A := fun s => (Raise e, s).

(** [try: m except Exception as e: h e].  What [m] did before it raised
    stays done. *)
Definition try_except {A} (m : M W A) (h : Exn -> M W A) : M W A :=
  fun s =>
    match m s with
    | (Val a, s') => (Val a, s')
    | (Raise e, s') => h e s'
    end.

Definition logging (lv : Level) (m : Msg) : M W unit :=
  fun s =>
    (Val tt,
     mkSys (world s) (log s ++ [(lv, m)]) (patches s) (opens s)
           (sleeps s) (var_resource_version s) (var_backoff_time s)).

(** [time.sleep(d)]. *)
Definition sleep (d : Z) : M W unit :=
  fun s =>
    (Val tt,
     mkSys (world s) (log s) (patches s) (opens s)
           (sleeps s ++ [d]) (var_resource_version s) (var_backoff_time s)).

(** The call [w.stream(..., resource_version=resource_version, ...)]. *)
Definition open_stream : M W unit :=
  fun s =>
    (Val tt,
     mkSys (world s) (log s) (patches s)
           (opens s ++ [var_resource_version s])
           (sleeps s) (var_resource_version s) (var_backoff_time s)).

Definition set_resource_version (rv : option string) : M W unit :=
  fun s =>
    (Val tt,
     mkSys (world s) (log s) (patches s) (opens s) (sleeps s)
           rv (var_backoff_time s)).

Definition set_backoff_time (b : Z) : M W unit :=
  fun s =>
    (Val tt,
     mkSys (world s) (log s) (patches s) (opens s) (sleeps s)
           (var_resource_version s) b).

Definition get_backoff_time : M W Z :=
  fun s => (Val (var_backoff_time s), s).

(** The patch call: recorded, then answered by the client. *)
Definition call_patch `{CoreV1Api W} (nm ns : string) (body : Body)
  : M W unit :=
  fun s =>
    let '(r, w') := patch_namespaced_config_map nm ns body (world s) in
    (match r with None => Val tt | Some e => Raise e end,
     mkSys w' (log s) (patches s ++ [mkCall nm ns body]) (opens s)
           (sleeps s) (var_resource_version s) (var_backoff_time s)).

(** A [for] loop whose body may raise. *)
Fixpoint for_each {A} (xs : list A) (body : A -> M W unit) : M W unit :=
  match xs with
  | [] => ret tt
  | x :: rest => bind (body x) (fun _ => for_each rest body)
  end.

End Monad.

Notation "m1 >> m2" := (bind m1 (fun _ => m2))
  (at level 90, right associativity).
Notation "'let*' x ':=' m1 'in' m2" := (bind m1 (fun x => m2))
  (at level 10, x name, m1 at level 100, m2 at level 200).

(** The expression [client.exceptions.MaxRetryError] of the second clause
    around the stream.  The module [kubernetes.client.exceptions] defines
    no such name (the class is [urllib3.exceptions.MaxRetryError]), so
    evaluating the expression raises [AttributeError] instead of giving a
    class to test the exception against. *)
Definition client_exceptions_MaxRetryError : Res (Exn -> bool) :=
  Raise AttributeError.

(** What the first [try] block meets: [config.load_incluster_config()]
    and the construction of the client and of the watch may each raise. *)
Record Bootstrap : Type := mkBootstrap {
  load_incluster_config : option Exn;
  make_client : option Exn
}.

(** How a run of [watch_source_configmap] stands at its end. *)
Inductive Exit : Type :=
  | Returned   (* the [return] of the first [except] clause *)
  | Looping.   (* inside [while True], about to open the next stream *)

(** ** sync_configmap_data *)

Section Program.
Context {W : Type} `{CoreV1Api W}.

(** The module-level list the pass iterates over. *)
Variable targets : list Target.

(** [not source_data]: [None] and the empty dict are falsy. *)
Definition falsy (source_data : option (gmap string string)) : bool :=
  match source_data with
  | None => true
  | Some d => bool_decide (d = ∅)
  end.

(** The body of the [for target in TARGET_CONFIGMAPS] loop, with its
    [try] and two [except] clauses. *)
Definition sync_target (source_data : gmap string string) (target : Target)
  : M W unit :=
  let target_name := target_name target in
  let target_ns := target_ns target in
  let body := mkBody source_data in
  try_except
    (call_patch target_name target_ns body >>
     logging INFO (SyncedTo target_ns target_name))
    (fun e =>
       match e with
       | ApiException status =>
           if (status =? 404)%Z
           then logging ERROR (TargetNotFound target_ns target_name)
           else logging ERROR (PatchFailed target_ns target_name e)
       | _ => logging CRITICAL (SyncUnexpected e)
       end).

Definition sync_configmap_data (source_data : option (gmap string string))
  : M W unit :=
  match source_data with
  | Some d =>
      if falsy source_data
      then logging WARNING SourceDataEmpty
      else
        logging INFO (SyncingTo (length targets)) >>
        for_each targets (sync_target d)
  | None => logging WARNING SourceDataEmpty
  end.

(** ** watch_source_configmap *)

(** The body of the [for event in w.stream(...)] loop. *)
Definition handle_event (event : Event) : M W unit :=
  let event_type := type event in
  let cm_obj := object event in
  let cm_name := name (metadata cm_obj) in
  let current_data := data cm_obj in
  set_resource_version (resource_version (metadata cm_obj)) >>
  if bool_decide (event_type ∈ ["ADDED"; "MODIFIED"])
  then
    sync_configmap_data current_data >>
    set_backoff_time 1
  else if bool_decide (event_type = "DELETED")
  then logging WARNING (SourceDeleted cm_name)
  else logging DEBUG (IgnoredEventType event_type).

(** The three [except] clauses around the stream, tried in order.  An
    [ApiException] is caught by the first.  For any other exception the
    expression of the second clause is evaluated next, and what that
    evaluation raises leaves the [try] statement: the third clause is not
    tried. *)
Definition watch_handler (e : Exn) : M W unit :=
  match e with
  | ApiException _ => logging ERROR (WatchApiException e)
  | _ =>
      match client_exceptions_MaxRetryError with
      | Raise a => raise a
      | Val is_instance =>
          if is_instance e
          then logging ERROR (WatchMaxRetry e)
          else logging CRITICAL (WatchUnexpected e)
      end
  end.

(** The iterator: it is opened with the current [resource_version],
    yields its events to the loop body, and ends as the session says. *)
Definition consume_stream (sess : Session) : M W unit :=
  open_stream >>
  for_each (events sess) handle_event >>
  match termination sess with
  | None => ret tt
  | Some e => raise e
  end.

(** One iteration of [while True]. *)
Definition loop_iteration (sess : Session) : M W unit :=
  try_except
    (logging INFO StartingWatch >> consume_stream sess)
    watch_handler >>
  let* backoff_time := get_backoff_time in
  logging INFO (Disconnected backoff_time) >>
  sleep backoff_time >>
  set_backoff_time (Z.min (backoff_time * 2) 60).

(** [while True], run against the sessions the outside provides.  The
    loop has no [break] and no [return]: it can be left only by an
    exception, which then leaves the function too, and is otherwise still
    running when the sessions are used up. *)
Fixpoint watch_loop (sessions : list Session) : M W unit :=
  match sessions with
  | [] => ret tt
  | sess :: rest => loop_iteration sess >> watch_loop rest
  end.

(** The body of the first [try] block. *)
Definition initialise (b : Bootstrap) : M W unit :=
  match load_incluster_config b with
  | Some e => raise e
  | None =>
      logging INFO ConfigLoaded >>
      match make_client b with
      | Some e => raise e
      | None => ret tt
      end
  end.

Definition watch_source_configmap (b : Bootstrap) (sessions : list Session)
  : M W Exit :=
  let* started :=
    try_except
      (initialise b >> ret true)
      (fun e => logging CRITICAL (InitFailed e) >> ret false) in
  if (started : bool)
  then
    set_resource_version None >>
    set_backoff_time 1 >>
    watch_loop sessions >>
    ret Looping
  else ret Returned.

End Program.

(** ** The remote store *)

(** An object of the store: its data field, and one more field for what a
    patch of the data field must leave alone. *)
Record ConfigMap : Type := mkConfigMap {
  cm_data : gmap string string;
  cm_labels : gmap string string
}.

(** The store, keyed by (namespace, name).  [faults] lists the objects on
    which any request is refused, with the exception the client then
    raises (403 for a missing RBAC rule, a transport error, ...). *)
Record ApiServer : Type := mkApiServer {
  objects : gmap (string * string) ConfigMap;
  faults : gmap (string * string) Exn
}.

(** Modelled from the spec: the patch capability of the remote store, a
    collaborator outside this repository.  It "accepts {namespace, name,
    new data field} and performs a full replace of that object's data
    field only; returns a distinguishable not-found condition versus other
    failures". *)
Definition api_patch (nm ns : string) (body : Body) (srv : ApiServer)
  : option Exn * ApiServer :=
  match faults srv !! (ns, nm) with
  | Some e => (Some e, srv)
  | None =>
      match objects srv !! (ns, nm) with
      | None => (Some (ApiException 404), srv)
      | Some cm =>
          (None,
           mkApiServer
             (<[(ns, nm) := mkConfigMap (body_data body) (cm_labels cm)]>
                (objects srv))
             (faults srv))
      end
  end.

#[export] Instance api_server_client : CoreV1Api ApiServer :=
  {| patch_namespaced_config_map := api_patch |}.

(** ** Reading a run *)

Definition target_key (t : Target) : string * string :=
  (target_ns t, target_name t).

(** The patch call the pass makes for target [t] with snapshot [d]. *)
Definition call_for (d : gmap string string) (t : Target) : PatchCall :=
  mkCall (target_name t) (target_ns t) (mkBody d).

(** The patch calls one event gives rise to. *)
Definition event_calls (targets : list Target) (e : Event) : list PatchCall :=
  if bool_decide (type e ∈ ["ADDED"; "MODIFIED"])
  then match data (object e) with
       | Some d => if bool_decide (d = ∅) then [] else map (call_for d) targets
       | None => []
       end
  else [].

Definition event_cursor (e : Event) : option string :=
  resource_version (metadata (object e)).

(** The value of [resource_version] after a stream that yielded [evs]. *)
Definition cursor_after (evs : list Event) (c : option string)
  : option string :=
  fold_left (fun _ e => event_cursor e) evs c.

(** The value of [backoff_time] after a stream that yielded [evs]. *)
Definition backoff_after (evs : list Event) (b : Z) : Z :=
  fold_left
    (fun b e => if bool_decide (type e ∈ ["ADDED"; "MODIFIED"]) then 1 else b)
    evs b.

(** The cursors presented to the successive stream-open calls, the first
    one with [c]. *)
Fixpoint cursors_from (c : option string) (sessions : list Session)
  : list (option string) :=
  match sessions with
  | [] => []
  | sess :: rest => c :: cursors_from (cursor_after (events sess) c) rest
  end.

(** The delays slept after the successive streams, [b] being the value of
    [backoff_time] when the first one is opened. *)
Fixpoint delays_from (b : Z) (sessions : list Session) : list Z :=
  match sessions with
  | [] => []
  | sess :: rest =>
      let d := backoff_after (events sess) b in
      d :: delays_from (Z.min (d * 2) 60) rest
  end.

(** The store after one patch request for target [t] with snapshot [d]. *)
Definition patched (d : gmap string string) (srv : ApiServer) (t : Target)
  : ApiServer :=
  snd (api_patch (target_name t) (target_ns t) (mkBody d) srv).

(** What a successful patch makes of an object. *)
Definition replace_data (d : gmap string string) (cm : ConfigMap)
  : ConfigMap :=
  mkConfigMap d (cm_labels cm).

(** The field of the store the data-field claim is about. *)
Definition data_of (srv : ApiServer) (t : Target)
  : option (gmap string string) :=
  cm_data <$> objects srv !! target_key t.

(** Every target holds exactly [d]. *)
Definition every_target_holds (targets : list Target)
    (d : gmap string string) (srv : ApiServer) : Prop :=
  ∀ t, t ∈ targets → data_of srv t = Some d.

(** A session that yields no Added and no Modified event. *)
Definition quiet (sess : Session) : bool :=
  forallb (λ e, negb (bool_decide (type e ∈ ["ADDED"; "MODIFIED"])))
          (events sess).

(** The [k]-th term of 1, 2, 4, 8, 16, 32, 60, 60, ... *)
Definition capped_double (k : nat) : Z := Z.min (2 ^ Z.of_nat k) 60.

(** A session without its Deleted events. *)
Definition without_deleted (sess : Session) : Session :=
  mkSession
    (filter (fun e => type e ≠ "DELETED") (events sess))
    (termination sess).

(** Running a computation: its result and its final state. *)
Definition result {W A} (m : M W A) (s : Sys W) : Res A := fst (m s).
Definition final {W A} (m : M W A) (s : Sys W) : Sys W := snd (m s).

(** A summary of what a computation did from [s]: it returned without an
    exception, made the patch calls [ps], opened streams with the cursors
    [os], slept [sl], and left the two variables at [rv] and [b]. *)
Definition runs_to {W} (m : M W unit) (s : Sys W) (ps : list PatchCall)
    (os : list (option string)) (sl : list Z) (rv : option string) (b : Z)
  : Prop :=
  result m s = Val tt
  ∧ patches (final m s) = patches s ++ ps
  ∧ opens (final m s) = opens s ++ os
  ∧ sleeps (final m s) = sleeps s ++ sl
  ∧ var_resource_version (final m s) = rv
  ∧ var_backoff_time (final m s) = b.

(** A concrete store and run, used to evaluate the program. *)
Definition demo_store : ApiServer :=
  mkApiServer
    {[ ("dev", "config-1") := mkConfigMap {[ "a" := "0"; "b" := "2" ]} ∅;
       ("stage", "config-2") := mkConfigMap {[ "a" := "0"; "b" := "2" ]}
                                             {[ "team" := "x" ]} ]}
    ∅.

(** The same store, with every request on dev/config-1 refused. *)
Definition refusing_store : ApiServer :=
  mkApiServer (objects demo_store)
              {[ ("dev", "config-1") := ApiException 403 ]}.

Definition demo_sys (srv : ApiServer) : Sys ApiServer :=
  mkSys srv [] [] [] [] None 1.

Definition demo_event (ty : string) (d : option (gmap string string))
    (rv : string) : Event :=
  mkEvent ty (mkObj (mkMetadata SOURCE_CONFIGMAP_NAME (Some rv)) d).

(** ** Reading the log *)

(** The records written while one event is processed: those of the sync
    pass and the two of the Deleted and ignored branches. *)
Definition event_record (r : LogRecord) : bool :=
  match snd r with
  | SourceDataEmpty | SyncingTo _ | SyncedTo _ _ | TargetNotFound _ _
  | PatchFailed _ _ _ | SyncUnexpected _ | SourceDeleted _
  | IgnoredEventType _ => true
  | _ => false
  end.

(** The delays the log announces ("Retrying in N seconds"). *)
Definition announced_delays (l : list LogRecord) : list Z :=
  omap (λ r, match snd r with Disconnected b => Some b | _ => None end) l.

(** The exceptions the log reports from the three clauses around the
    stream. *)
Definition stream_errors (l : list LogRecord) : list Exn :=
  omap (λ r, match snd r with
             | WatchApiException e | WatchMaxRetry e | WatchUnexpected e =>
                 Some e
             | _ => None
             end) l.

(** A stream whose end the loop survives: it ran out, or it raised an
    [ApiException]. *)
Definition handled (sess : Session) : bool :=
  match termination sess with
  | None | Some (ApiException _) => true
  | Some _ => false
  end.

(** The streams the loop gets to open: all of them up to and including the
    first whose end it does not survive. *)
Fixpoint opened (sessions : list Session) : list Session :=
  match sessions with
  | [] => []
  | sess :: rest => if handled sess then sess :: opened rest else [sess]
  end.

(** The streams after which the loop sleeps and goes on. *)
Fixpoint completed (sessions : list Session) : list Session :=
  match sessions with
  | [] => []
  | sess :: rest => if handled sess then sess :: completed rest else []
  end.

(** The record the first clause around the stream writes, if the stream
    ended in an [ApiException]. *)
Definition termination_records (sess : Session) : list LogRecord :=
  match termination sess with
  | Some (ApiException status) =>
      [(ERROR, WatchApiException (ApiException status))]
  | _ => []
  end.

(** The record about target [t] when the client answered [r] to its patch
    call. *)
Definition outcome_of (t : Target) (r : option Exn) : LogRecord :=
  match r with
  | None => (INFO, SyncedTo (target_ns t) (target_name t))
  | Some (ApiException status) =>
      if (status =? 404)%Z
      then (ERROR, TargetNotFound (target_ns t) (target_name t))
      else (ERROR, PatchFailed (target_ns t) (target_name t)
                               (ApiException status))
  | Some e => (CRITICAL, SyncUnexpected e)
  end.

(** The records of a pass over [ts] from the store [w]: each call is
    answered in the store the calls before it have left. *)
Fixpoint pass_records {W} `{CoreV1Api W} (d : gmap string string)
    (ts : list Target) (w : W) : list LogRecord :=
  match ts with
  | [] => []
  | t :: rest =>
      let '(r, w') :=
        patch_namespaced_config_map (target_name t) (target_ns t)
                                    (mkBody d) w in
      outcome_of t r :: pass_records d rest w'
  end.

(** An event that makes the pass patch: Added or Modified, with data. *)
Definition patching (e : Event) : bool :=
  bool_decide (type e ∈ ["ADDED"; "MODIFIED"]) && negb (falsy (data (object e))).

(** A delay the loop may sleep. *)
Definition in_backoff_range (d : Z) : Prop := 1 ≤ d ≤ 60.

(** ** Properties *)

Section Properties.
Context {W : Type} `{CoreV1Api W}.
Variable targets : list Target.

Lemma runs_to_bind (m1 m2 : M W unit) (s : Sys W) ps1 os1 sl1 rv1 b1
    ps2 os2 sl2 rv2 b2 :
  runs_to m1 s ps1 os1 sl1 rv1 b1 →
  runs_to m2 (final m1 s) ps2 os2 sl2 rv2 b2 →
  runs_to (m1 >> m2) s (ps1 ++ ps2) (os1 ++ os2) (sl1 ++ sl2) rv2 b2.
Proof.
  intros (Hr & Hp & Ho & Hs & _ & _) (Hr' & Hp' & Ho' & Hs' & Hv' & Hb').
  unfold runs_to, result, final, bind in *.
  destruct (m1 s) as [r s1]; cbn in *. subst r.
  rewrite Hp', Ho', Hs', Hp, Ho, Hs, !app_assoc. done.
Qed.

Lemma runs_to_vars (m : M W unit) (s : Sys W) ps os sl rv b :
  runs_to m s ps os sl rv b →
  var_resource_version (final m s) = rv ∧ var_backoff_time (final m s) = b.
Proof. intros (_ & _ & _ & _ & Hv & Hb). done. Qed.

Lemma final_bind (m1 m2 : M W unit) (s : Sys W) :
  result m1 s = Val tt → final (m1 >> m2) s = final m2 (final m1 s).
Proof.
  unfold result, final, bind. destruct (m1 s) as [r s1]; cbn.
  intros ->. done.
Qed.

(** Chains the summaries of [m1] and of [m2]. *)
Ltac chain H1 H2 H3 :=
  let Hv := fresh in let Hb := fresh in
  destruct (runs_to_vars _ _ _ _ _ _ _ H1) as [Hv Hb];
  rewrite ?Hv, ?Hb in H2;
  pose proof (runs_to_bind _ _ _ _ _ _ _ _ _ _ _ _ _ H1 H2) as H3;
  clear Hv Hb.

Lemma sync_target_spec (d : gmap string string) (t : Target) (s : Sys W) :
  runs_to (sync_target d t) s [call_for d t] [] []
          (var_resource_version s) (var_backoff_time s).
Proof.
  unfold runs_to, result, final, sync_target, try_except, bind, call_patch,
    call_for.
  destruct (patch_namespaced_config_map _ _ _ (world s)) as [[e|] w'];
    cbn; rewrite ?app_nil_r; [|done].
  destruct e as [st| | |]; cbn; [destruct (st =? 404)%Z|..]; done.
Qed.

Lemma for_each_sync_spec (d : gmap string string) (ts : list Target)
    (s : Sys W) :
  runs_to (for_each ts (sync_target d)) s (map (call_for d) ts) [] []
          (var_resource_version s) (var_backoff_time s).
Proof.
  revert s. induction ts as [|t ts IH]; intros s.
  - unfold runs_to. cbn. rewrite !app_nil_r. done.
  - pose proof (IH (final (sync_target d t) s)) as H2.
    destruct (sync_target_spec d t s) as (_ & _ & _ & _ & Hv & Hb).
    rewrite Hv, Hb in H2.
    exact (runs_to_bind _ _ _ _ _ _ _ _ _ _ _ _ _
             (sync_target_spec d t s) H2).
Qed.

Lemma logging_spec (lv : Level) (m : Msg) (s : Sys W) :
  runs_to (logging lv m) s [] [] []
          (var_resource_version s) (var_backoff_time s).
Proof. unfold runs_to. cbn. rewrite !app_nil_r. done. Qed.

Lemma sync_configmap_data_spec (sd : option (gmap string string))
    (s : Sys W) :
  runs_to (sync_configmap_data targets sd) s
          (match sd with
           | Some d =>
               if bool_decide (d = ∅) then [] else map (call_for d) targets
           | None => []
           end)
          [] [] (var_resource_version s) (var_backoff_time s).
Proof.
  destruct sd as [d|]; cbn [sync_configmap_data falsy]; [|apply logging_spec].
  destruct (bool_decide (d = ∅)); [apply logging_spec|].
  pose proof (logging_spec INFO (SyncingTo (length targets)) s) as H1.
  pose proof (for_each_sync_spec d targets
                (final (logging INFO (SyncingTo (length targets))) s)) as H2.
  exact (runs_to_bind _ _ _ _ _ _ _ _ _ _ _ _ _ H1 H2).
Qed.

Lemma set_resource_version_spec (rv : option string) (s : Sys W) :
  runs_to (set_resource_version rv) s [] [] [] rv (var_backoff_time s).
Proof. unfold runs_to. cbn. rewrite !app_nil_r. done. Qed.

Lemma set_backoff_time_spec (b : Z) (s : Sys W) :
  runs_to (set_backoff_time b) s [] [] [] (var_resource_version s) b.
Proof. unfold runs_to. cbn. rewrite !app_nil_r. done. Qed.

Lemma handle_event_spec (e : Event) (s : Sys W) :
  runs_to (handle_event targets e) s (event_calls targets e) [] []
          (event_cursor e)
          (if bool_decide (type e ∈ ["ADDED"; "MODIFIED"])
           then 1 else var_backoff_time s).
Proof.
  unfold handle_event, event_calls.
  set (rv := resource_version (metadata (object e))).
  pose proof (set_resource_version_spec rv s) as H1.
  set (s1 := final (set_resource_version rv) s) in *.
  assert (Hv1 : var_resource_version s1 = event_cursor e) by done.
  assert (Hb1 : var_backoff_time s1 = var_backoff_time s) by done.
  destruct (bool_decide (type e ∈ ["ADDED"; "MODIFIED"])).
  - pose proof (sync_configmap_data_spec (data (object e)) s1) as H2.
    pose proof (set_backoff_time_spec 1
                  (final (sync_configmap_data targets (data (object e))) s1))
      as H3.
    destruct (runs_to_vars _ _ _ _ _ _ _ H2) as [Hv2 _].
    rewrite Hv2, Hv1 in H3.
    pose proof (runs_to_bind _ _ _ _ _ _ _ _ _ _ _ _ _ H2 H3) as H4.
    pose proof (runs_to_bind _ _ _ _ _ _ _ _ _ _ _ _ _ H1 H4) as H5.
    cbn in H5. rewrite app_nil_r in H5. exact H5.
  - destruct (bool_decide (type e = "DELETED")).
    + pose proof (logging_spec WARNING
                    (SourceDeleted (name (metadata (object e)))) s1) as H2.
      rewrite Hv1, Hb1 in H2.
      exact (runs_to_bind _ _ _ _ _ _ _ _ _ _ _ _ _ H1 H2).
    + pose proof (logging_spec DEBUG (IgnoredEventType (type e)) s1) as H2.
      rewrite Hv1, Hb1 in H2.
      exact (runs_to_bind _ _ _ _ _ _ _ _ _ _ _ _ _ H1 H2).
Qed.

Lemma events_spec (evs : list Event) (s : Sys W) :
  runs_to (for_each evs (handle_event targets)) s
          (flat_map (event_calls targets) evs) [] []
          (cursor_after evs (var_resource_version s))
          (backoff_after evs (var_backoff_time s)).
Proof.
  revert s. induction evs as [|e evs IH]; intros s.
  - unfold runs_to. cbn. rewrite !app_nil_r. done.
  - pose proof (handle_event_spec e s) as H1.
    pose proof (IH (final (handle_event targets e) s)) as H2.
    chain H1 H2 H3. exact H3.
Qed.

Lemma result_bind (m1 m2 : M W unit) (s : Sys W) :
  result m1 s = Val tt → result (m1 >> m2) s = result m2 (final m1 s).
Proof.
  unfold result, final, bind. destruct (m1 s) as [r s1]; cbn.
  intros ->. done.
Qed.

Lemma bind_raise (m1 m2 : M W unit) (s : Sys W) (e : Exn) :
  result m1 s = Raise e →
  result (m1 >> m2) s = Raise e ∧ final (m1 >> m2) s = final m1 s.
Proof.
  unfold result, final, bind. destruct (m1 s) as [r s1]; cbn.
  intros ->. done.
Qed.

(** The stream up to its end: the start line, the open, the events. *)
Lemma stream_body_spec (sess : Session) (s : Sys W) :
  runs_to (logging INFO StartingWatch >> open_stream >>
           for_each (events sess) (handle_event targets)) s
          (flat_map (event_calls targets) (events sess))
          [var_resource_version s] []
          (cursor_after (events sess) (var_resource_version s))
          (backoff_after (events sess) (var_backoff_time s)).
Proof.
  pose proof (logging_spec INFO StartingWatch s) as H1.
  set (s1 := final (logging INFO StartingWatch) s) in *.
  assert (H2 : runs_to open_stream s1 [] [var_resource_version s] []
                 (var_resource_version s) (var_backoff_time s)).
  { unfold runs_to. cbn. rewrite !app_nil_r. done. }
  pose proof (events_spec (events sess) (final open_stream s1)) as H3.
  chain H2 H3 H4. chain H1 H4 H5. exact H5.
Qed.

Lemma guarded_stream_run (sess : Session) (s : Sys W) :
  try_except (logging INFO StartingWatch >> consume_stream targets sess)
             watch_handler s
  = match termination sess with
    | None => ret tt
    | Some e => watch_handler e
    end (final (logging INFO StartingWatch >> open_stream >>
                for_each (events sess) (handle_event targets)) s).
Proof.
  destruct (stream_body_spec sess s) as (Hr & _).
  unfold consume_stream, try_except, final, result, bind in *. cbn in *.
  destruct (for_each (events sess) (handle_event targets) _) as [r s3].
  cbn in *. subst r. by destruct (termination sess).
Qed.

(** The [try] statement around a stream whose end is survived. *)
Lemma guarded_stream_spec (sess : Session) (s : Sys W) :
  handled sess = true →
  runs_to (try_except (logging INFO StartingWatch >> consume_stream targets sess)
                      watch_handler) s
          (flat_map (event_calls targets) (events sess))
          [var_resource_version s] []
          (cursor_after (events sess) (var_resource_version s))
          (backoff_after (events sess) (var_backoff_time s)).
Proof.
  intros Hh. destruct (stream_body_spec sess s) as (Hr & Hp & Ho & Hs & Hv & Hb).
  unfold runs_to, result, final. rewrite guarded_stream_run.
  set (s3 := final _ s) in *. unfold handled in Hh.
  destruct (termination sess) as [[st| | |]|]; try discriminate Hh; cbn;
    rewrite ?Hp, ?Ho, ?Hs, ?Hv, ?Hb; done.
Qed.

(** The [try] statement around a stream that ends in another exception:
    the events were processed, and then the statement raises. *)
Lemma guarded_stream_raises (sess : Session) (s : Sys W) :
  handled sess = false →
  let m := try_except (logging INFO StartingWatch >>
                       consume_stream targets sess) watch_handler in
  result m s = Raise AttributeError
  ∧ patches (final m s)
    = patches s ++ flat_map (event_calls targets) (events sess)
  ∧ opens (final m s) = opens s ++ [var_resource_version s]
  ∧ sleeps (final m s) = sleeps s.
Proof.
  intros Hh m. subst m.
  destruct (stream_body_spec sess s) as (Hr & Hp & Ho & Hs & Hv & Hb).
  unfold result, final. rewrite guarded_stream_run.
  set (s3 := final _ s) in *. unfold handled in Hh.
  rewrite app_nil_r in Hs.
  destruct (termination sess) as [[st| | |]|]; try discriminate Hh; cbn;
    done.
Qed.

Lemma loop_iteration_spec (sess : Session) (s : Sys W) :
  handled sess = true →
  runs_to (loop_iteration targets sess) s
          (flat_map (event_calls targets) (events sess))
          [var_resource_version s]
          [backoff_after (events sess) (var_backoff_time s)]
          (cursor_after (events sess) (var_resource_version s))
          (Z.min (backoff_after (events sess) (var_backoff_time s) * 2) 60).
Proof.
  intros Hh. pose proof (guarded_stream_spec sess s Hh) as H1.
  set (m1 := try_except _ _) in *.
  assert (H2 : runs_to
                 (let* backoff_time := get_backoff_time in
                  logging INFO (Disconnected backoff_time) >>
                  sleep backoff_time >>
                  set_backoff_time (Z.min (backoff_time * 2) 60))
                 (final m1 s) [] []
                 [var_backoff_time (final m1 s)]
                 (var_resource_version (final m1 s))
                 (Z.min (var_backoff_time (final m1 s) * 2) 60)).
  { unfold runs_to. cbn. rewrite !app_nil_r. done. }
  chain H1 H2 H3. rewrite !app_nil_r in H3. exact H3.
Qed.

Lemma loop_iteration_raises (sess : Session) (s : Sys W) :
  handled sess = false →
  result (loop_iteration targets sess) s = Raise AttributeError
  ∧ patches (final (loop_iteration targets sess) s)
    = patches s ++ flat_map (event_calls targets) (events sess)
  ∧ opens (final (loop_iteration targets sess) s)
    = opens s ++ [var_resource_version s]
  ∧ sleeps (final (loop_iteration targets sess) s) = sleeps s.
Proof.
  intros Hh.
  destruct (guarded_stream_raises sess s Hh) as (Hr & Hp & Ho & Hs).
  unfold loop_iteration.
  destruct (bind_raise _
              (let* backoff_time := get_backoff_time in
               logging INFO (Disconnected backoff_time) >>
               sleep backoff_time >>
               set_backoff_time (Z.min (backoff_time * 2) 60))
              s AttributeError Hr) as [-> ->].
  done.
Qed.

(** The loop over the sessions: it goes on as long as the streams end in a
    way it survives, and raises at the first that does not. *)
Lemma watch_loop_spec (sessions : list Session) (s : Sys W) :
  result (watch_loop targets sessions) s
  = (if forallb handled sessions then Val tt else Raise AttributeError)
  ∧ patches (final (watch_loop targets sessions) s)
    = patches s
      ++ flat_map (event_calls targets) (flat_map events (opened sessions))
  ∧ opens (final (watch_loop targets sessions) s)
    = opens s ++ cursors_from (var_resource_version s) (opened sessions)
  ∧ sleeps (final (watch_loop targets sessions) s)
    = sleeps s ++ delays_from (var_backoff_time s) (completed sessions).
Proof.
  revert s. induction sessions as [|sess rest IH]; intros s.
  - cbn. rewrite !app_nil_r. done.
  - cbn [watch_loop forallb opened completed].
    destruct (handled sess) eqn:Hh.
    + destruct (loop_iteration_spec sess s Hh)
        as (Hr & Hp & Ho & Hs & Hv & Hb).
      destruct (IH (final (loop_iteration targets sess) s))
        as (Hr' & Hp' & Ho' & Hs').
      rewrite result_bind, final_bind by exact Hr.
      rewrite Hr', Hp', Ho', Hs', Hp, Ho, Hs, Hv, Hb.
      cbn [flat_map cursors_from delays_from andb].
      rewrite flat_map_app, <- !app_assoc. done.
    + destruct (loop_iteration_raises sess s Hh) as (Hr & Hp & Ho & Hs).
      destruct (bind_raise _ (watch_loop targets rest) s AttributeError Hr)
        as [-> ->].
      rewrite Hp, Ho, Hs. cbn. rewrite !app_nil_r. done.
Qed.

(** The run of the whole function when the client can be built. *)
Lemma watch_started_spec (b : Bootstrap) (sessions : list Session)
    (s : Sys W) :
  load_incluster_config b = None → make_client b = None →
  let m := watch_source_configmap targets b sessions in
  result m s
  = (if forallb handled sessions then Val Looping else Raise AttributeError)
  ∧ patches (final m s)
    = patches s
      ++ flat_map (event_calls targets) (flat_map events (opened sessions))
  ∧ opens (final m s) = opens s ++ cursors_from None (opened sessions)
  ∧ sleeps (final m s) = sleeps s ++ delays_from 1 (completed sessions).
Proof.
  intros Hl Hc m. subst m.
  unfold watch_source_configmap, initialise. rewrite Hl, Hc.
  set (s2 := final (logging INFO ConfigLoaded >> set_resource_version None
                    >> set_backoff_time 1) s).
  destruct (watch_loop_spec sessions s2) as (Hr & Hp & Ho & Hs).
  unfold result, final, try_except, bind in *. cbn in *.
  destruct (watch_loop targets sessions _) as [r s3]. cbn in *. subst r.
  by destruct (forallb handled sessions).
Qed.

(** The run of the whole function when the client cannot be built. *)
Lemma watch_not_started_spec (b : Bootstrap) (sessions : list Session)
    (s : Sys W) :
  load_incluster_config b ≠ None ∨ make_client b ≠ None →
  let m := watch_source_configmap targets b sessions in
  result m s = Val Returned
  ∧ world (final m s) = world s
  ∧ patches (final m s) = patches s
  ∧ opens (final m s) = opens s
  ∧ sleeps (final m s) = sleeps s.
Proof.
  intros Hb m. subst m.
  unfold watch_source_configmap, initialise, result, final, try_except, bind.
  destruct (load_incluster_config b) as [e|]; cbn; [done|].
  destruct (make_client b) as [e|]; cbn; [done|].
  destruct Hb; done.
Qed.

End Properties.

(** ** The pass against the store *)

Section Store.
Variable targets : list Target.

Lemma patched_faults (d : gmap string string) (srv : ApiServer) (t : Target) :
  faults (patched d srv t) = faults srv.
Proof.
  unfold patched, api_patch.
  destruct (faults srv !! _); [done|]. destruct (objects srv !! _); done.
Qed.

Lemma patched_lookup (d : gmap string string) (srv : ApiServer) (t : Target)
    (k : string * string) :
  objects (patched d srv t) !! k
  = if decide (k = target_key t ∧ faults srv !! k = None)
    then replace_data d <$> objects srv !! k
    else objects srv !! k.
Proof.
  unfold patched, api_patch, target_key.
  destruct (faults srv !! (target_ns t, target_name t)) as [e|] eqn:Hf; cbn.
  { case_decide as Hk; [|done]. destruct Hk as [-> Hk]. congruence. }
  destruct (objects srv !! (target_ns t, target_name t)) as [cm|] eqn:Ho; cbn.
  - case_decide as Hk.
    + destruct Hk as [-> _]. rewrite lookup_insert_eq, Ho. done.
    + rewrite lookup_insert_ne; [done|]. intros <-. apply Hk. done.
  - case_decide as Hk; [|done]. destruct Hk as [-> _]. rewrite Ho. done.
Qed.

Lemma fold_patched_lookup (d : gmap string string) (ts : list Target)
    (srv : ApiServer) (k : string * string) :
  objects (fold_left (patched d) ts srv) !! k
  = if decide (k ∈ map target_key ts ∧ faults srv !! k = None)
    then replace_data d <$> objects srv !! k
    else objects srv !! k.
Proof.
  revert srv. induction ts as [|t ts IH]; intros srv; cbn [fold_left map].
  - case_decide as Hk; [|done]. destruct Hk as [Hk _]. inversion Hk.
  - rewrite IH, patched_faults, patched_lookup.
    destruct (decide (k ∈ map target_key ts ∧ faults srv !! k = None))
      as [[Hin Hf]|Hn];
      destruct (decide (k = target_key t ∧ faults srv !! k = None))
        as [[Hk Hf']|Hn'].
    + rewrite decide_True by (split; [by apply elem_of_cons; left|done]).
      destruct (objects srv !! k); done.
    + rewrite decide_True by (split; [by apply elem_of_cons; right|done]).
      done.
    + rewrite decide_True by (split; [by apply elem_of_cons; left|done]).
      done.
    + rewrite decide_False; [done|]. intros [Hin Hf].
      apply elem_of_cons in Hin as [Hk|Hin]; [apply Hn'|apply Hn]; done.
Qed.

Lemma sync_target_world (d : gmap string string) (t : Target)
    (s : Sys ApiServer) :
  world (final (sync_target d t) s) = patched d (world s) t.
Proof.
  unfold final, sync_target, try_except, bind, call_patch, patched. cbn.
  destruct (api_patch _ _ _ (world s)) as [[e|] w']; cbn; [|done].
  destruct e as [st| | |]; cbn; [destruct (st =? 404)%Z|..]; done.
Qed.

Lemma for_each_sync_world (d : gmap string string) (ts : list Target)
    (s : Sys ApiServer) :
  world (final (for_each ts (sync_target d)) s)
  = fold_left (patched d) ts (world s).
Proof.
  revert s. induction ts as [|t ts IH]; intros s; [done|].
  destruct (sync_target_spec d t s) as (Hr & _).
  cbn [for_each fold_left]. rewrite final_bind by exact Hr.
  rewrite IH, sync_target_world. done.
Qed.

(** The store after an Added or Modified event with a non-empty snapshot. *)
Lemma handle_event_world (e : Event) (d : gmap string string)
    (s : Sys ApiServer) :
  type e ∈ ["ADDED"; "MODIFIED"] → data (object e) = Some d → d ≠ ∅ →
  world (final (handle_event targets e) s)
  = fold_left (patched d) targets (world s).
Proof.
  intros Ht Hd Hne.
  pose proof (for_each_sync_world d targets
    (final (logging INFO (SyncingTo (length targets)))
       (final (set_resource_version (resource_version (metadata (object e))))
          s))) as Hw.
  destruct (for_each_sync_spec d targets
    (final (logging INFO (SyncingTo (length targets)))
       (final (set_resource_version (resource_version (metadata (object e))))
          s))) as (Hr & _).
  unfold handle_event, sync_configmap_data, falsy.
  rewrite (bool_decide_eq_true_2 _ Ht), Hd, (bool_decide_eq_false_2 _ Hne).
  unfold final, result, bind in *. cbn in *.
  destruct (for_each targets (sync_target d) _) as [r s3]. cbn in *.
  subst r. cbn. exact Hw.
Qed.

End Store.

(** ** Event kinds *)

Lemma sync_kind_elem (ty : string) :
  ty = "ADDED" ∨ ty = "MODIFIED" ↔ ty ∈ ["ADDED"; "MODIFIED"].
Proof.
  rewrite !elem_of_cons, elem_of_nil. tauto.
Qed.

Lemma deleted_not_sync_kind : "DELETED" ∉ ["ADDED"; "MODIFIED"].
Proof.
  rewrite <- sync_kind_elem. intros [Hk|Hk]; discriminate Hk.
Qed.

Lemma skipped_pass {W} `{CoreV1Api W} (targets : list Target)
    (source_data : option (gmap string string)) (s : Sys W) :
  falsy source_data = true →
  sync_configmap_data targets source_data s
  = logging WARNING SourceDataEmpty s.
Proof.
  destruct source_data as [d|]; cbn [sync_configmap_data]; [|done].
  intros ->. done.
Qed.

(** ** Streams reached *)

Lemma all_handled_reached (sessions : list Session) :
  forallb handled sessions = true →
  opened sessions = sessions ∧ completed sessions = sessions.
Proof.
  induction sessions as [|sess rest IH]; [done|].
  cbn. intros [Hh Hrest]%andb_prop. rewrite Hh.
  destruct (IH Hrest) as [-> ->]. done.
Qed.

Lemma reached_app (pre rest : list Session) :
  forallb handled pre = true →
  opened (pre ++ rest) = pre ++ opened rest
  ∧ completed (pre ++ rest) = pre ++ completed rest.
Proof.
  induction pre as [|sess pre IH]; [done|].
  cbn. intros [Hh Hpre]%andb_prop. rewrite Hh.
  destruct (IH Hpre) as [-> ->]. done.
Qed.

Lemma opened_is_prefix (sessions : list Session) :
  ∃ k, opened sessions = take k sessions.
Proof.
  induction sessions as [|sess rest [k IH]]; [by exists 0%nat|].
  cbn. destruct (handled sess).
  - exists (S k). cbn. by rewrite IH.
  - exists 1%nat. cbn. by rewrite take_0.
Qed.

Lemma completed_length (sessions : list Session) :
  (length (completed sessions) ≤ length sessions)%nat.
Proof.
  induction sessions as [|sess rest IH]; [done|].
  cbn. destruct (handled sess); cbn; lia.
Qed.

Lemma opened_without_deleted (sessions : list Session) :
  opened (map without_deleted sessions) = map without_deleted (opened sessions).
Proof.
  induction sessions as [|sess rest IH]; [done|].
  cbn. change (handled (without_deleted sess)) with (handled sess).
  destruct (handled sess); cbn; by rewrite ?IH.
Qed.

Lemma opened_cons (sess : Session) (rest : list Session) :
  ∃ tl, opened (sess :: rest) = sess :: tl.
Proof. cbn. destruct (handled sess); by eexists. Qed.

Lemma cursors_from_take (c : option string) (k : nat)
    (sessions : list Session) :
  cursors_from c (take k sessions) = take k (cursors_from c sessions).
Proof.
  revert c k. induction sessions as [|sess rest IH]; intros c [|k]; cbn;
    try done.
  by rewrite IH.
Qed.

(** ** The claims *)

(** C2: when the snapshot is empty or absent, the sync pass makes no patch
    call, leaves the store as it is, and logs exactly one record, the
    warning that the pass is skipped. *)
Theorem empty_snapshot_is_skipped {W} `{CoreV1Api W} (targets : list Target)
    (source_data : option (gmap string string)) (s : Sys W) :
  source_data = None ∨ source_data = Some ∅ →
  result (sync_configmap_data targets source_data) s = Val tt
  ∧ patches (final (sync_configmap_data targets source_data) s) = patches s
  ∧ world (final (sync_configmap_data targets source_data) s) = world s
  ∧ log (final (sync_configmap_data targets source_data) s)
    = log s ++ [(WARNING, SourceDataEmpty)].
Proof.
  intros Hsd. unfold result, final. rewrite skipped_pass; [done|].
  destruct Hsd as [-> | ->]; [done|]. cbn. by apply bool_decide_eq_true_2.
Qed.

Lemma empty_snapshot_is_skipped_witness :
  result (sync_configmap_data TARGET_CONFIGMAPS (Some ∅)) (demo_sys demo_store)
  = Val tt
  ∧ patches (final (sync_configmap_data TARGET_CONFIGMAPS (Some ∅))
               (demo_sys demo_store))
    = patches (demo_sys demo_store)
  ∧ world (final (sync_configmap_data TARGET_CONFIGMAPS (Some ∅))
             (demo_sys demo_store))
    = world (demo_sys demo_store)
  ∧ log (final (sync_configmap_data TARGET_CONFIGMAPS (Some ∅))
           (demo_sys demo_store))
    = log (demo_sys demo_store) ++ [(WARNING, SourceDataEmpty)].
Proof.
  apply (empty_snapshot_is_skipped TARGET_CONFIGMAPS (Some ∅)
           (demo_sys demo_store)).
  right. reflexivity.
Defined.

(** C10: an Added or Modified event whose snapshot is empty or absent is
    processed without an exception and without a patch call, and it sets
    the backoff delay to 1 like any other Added or Modified event. *)
Theorem skipped_event_resets_backoff {W} `{CoreV1Api W}
    (targets : list Target) (event : Event) (s : Sys W) :
  type event = "ADDED" ∨ type event = "MODIFIED" →
  data (object event) = None ∨ data (object event) = Some ∅ →
  result (handle_event targets event) s = Val tt
  ∧ patches (final (handle_event targets event) s) = patches s
  ∧ world (final (handle_event targets event) s) = world s
  ∧ var_backoff_time (final (handle_event targets event) s) = 1.
Proof.
  intros Hty%sync_kind_elem Hd.
  assert (Hf : falsy (data (object event)) = true).
  { destruct Hd as [-> | ->]; [done|]. cbn. by apply bool_decide_eq_true_2. }
  unfold result, final, handle_event, bind. cbn.
  rewrite (bool_decide_eq_true_2 _ Hty), skipped_pass by exact Hf. done.
Qed.

Lemma skipped_event_resets_backoff_witness :
  let s := mkSys demo_store [] [] [] [] None 32 in
  let event := demo_event "MODIFIED" None "41" in
  result (handle_event TARGET_CONFIGMAPS event) s = Val tt
  ∧ patches (final (handle_event TARGET_CONFIGMAPS event) s) = patches s
  ∧ world (final (handle_event TARGET_CONFIGMAPS event) s) = world s
  ∧ var_backoff_time (final (handle_event TARGET_CONFIGMAPS event) s) = 1.
Proof.
  intros s event.
  apply (skipped_event_resets_backoff TARGET_CONFIGMAPS event s).
  - right. reflexivity.
  - left. reflexivity.
Defined.

Lemma event_calls_deleted (targets : list Target) (e : Event) :
  type e = "DELETED" → event_calls targets e = [].
Proof.
  intros Ht. unfold event_calls. rewrite Ht.
  by rewrite (bool_decide_eq_false_2 _ deleted_not_sync_kind).
Qed.

Lemma calls_without_deleted (targets : list Target) (evs : list Event) :
  flat_map (event_calls targets) (filter (λ e, type e ≠ "DELETED") evs)
  = flat_map (event_calls targets) evs.
Proof.
  induction evs as [|e evs IH]; [done|].
  destruct (decide (type e = "DELETED")) as [Hd|Hd].
  - rewrite filter_cons_False by (intros Hn; by apply Hn).
    cbn. rewrite event_calls_deleted by done. exact IH.
  - rewrite filter_cons_True by done. cbn. by rewrite IH.
Qed.

Lemma session_calls_without_deleted (targets : list Target)
    (sessions : list Session) :
  flat_map (event_calls targets)
           (flat_map events (map without_deleted sessions))
  = flat_map (event_calls targets) (flat_map events sessions).
Proof.
  induction sessions as [|sess rest IH]; [done|].
  cbn. rewrite !flat_map_app, IH, calls_without_deleted. done.
Qed.

(** C3: a Deleted event is processed without any patch call and without
    any change to the store, from every state; and over a whole run the
    patch calls are those of the same run with the Deleted events taken
    out of the streams. *)
Theorem deleted_event_never_patches {W} `{CoreV1Api W}
    (targets : list Target) :
  (∀ (event : Event) (s : Sys W),
     type event = "DELETED" →
     result (handle_event targets event) s = Val tt
     ∧ patches (final (handle_event targets event) s) = patches s
     ∧ world (final (handle_event targets event) s) = world s)
  ∧ (∀ (b : Bootstrap) (sessions : list Session) (s : Sys W),
       load_incluster_config b = None → make_client b = None →
       patches (final (watch_source_configmap targets b sessions) s)
       = patches (final (watch_source_configmap targets b
                           (map without_deleted sessions)) s)).
Proof.
  split.
  - intros event s Ht.
    unfold result, final, handle_event, bind. cbn. rewrite Ht.
    rewrite (bool_decide_eq_false_2 _ deleted_not_sync_kind).
    rewrite bool_decide_eq_true_2 by done. done.
  - intros b sessions s Hl Hc.
    destruct (watch_started_spec targets b sessions s Hl Hc)
      as (_ & -> & _).
    destruct (watch_started_spec targets b (map without_deleted sessions) s
                Hl Hc) as (_ & -> & _).
    by rewrite opened_without_deleted, session_calls_without_deleted.
Qed.

Lemma deleted_event_never_patches_witness :
  let s := demo_sys demo_store in
  let event := demo_event "DELETED" (Some {[ "a" := "1" ]}) "42" in
  result (handle_event TARGET_CONFIGMAPS event) s = Val tt
  ∧ patches (final (handle_event TARGET_CONFIGMAPS event) s) = patches s
  ∧ world (final (handle_event TARGET_CONFIGMAPS event) s) = world s.
Proof.
  intros s event.
  apply (proj1 (deleted_event_never_patches TARGET_CONFIGMAPS) event s).
  reflexivity.
Defined.

(** C6, as the code has it: an Added or Modified event sets the backoff
    delay to 1 from every state, however large the delay had grown and
    whatever its sync pass met; an event of any other kind leaves the
    delay as it was. *)
Theorem backoff_resets_on_added_or_modified {W} `{CoreV1Api W}
    (targets : list Target) (event : Event) (s : Sys W) :
  (type event = "ADDED" ∨ type event = "MODIFIED" →
   var_backoff_time (final (handle_event targets event) s) = 1)
  ∧ (type event ≠ "ADDED" → type event ≠ "MODIFIED" →
     var_backoff_time (final (handle_event targets event) s)
     = var_backoff_time s).
Proof.
  destruct (handle_event_spec targets event s) as (_ & _ & _ & _ & _ & Hb).
  rewrite Hb. split.
  - intros Hty%sync_kind_elem. by rewrite bool_decide_eq_true_2.
  - intros Ha Hm. rewrite bool_decide_eq_false_2; [done|].
    rewrite <- sync_kind_elem. tauto.
Qed.

Lemma backoff_resets_on_added_or_modified_witness :
  let s := mkSys demo_store [] [] [] [] None 60 in
  var_backoff_time
    (final (handle_event TARGET_CONFIGMAPS
              (demo_event "ADDED" (Some {[ "a" := "1" ]}) "7")) s) = 1
  ∧ var_backoff_time
      (final (handle_event TARGET_CONFIGMAPS
                (demo_event "BOOKMARK" None "8")) s) = 60.
Proof.
  intros s. split.
  - apply (proj1 (backoff_resets_on_added_or_modified TARGET_CONFIGMAPS
                    (demo_event "ADDED" (Some {[ "a" := "1" ]}) "7") s)).
    left. reflexivity.
  - apply (proj2 (backoff_resets_on_added_or_modified TARGET_CONFIGMAPS
                    (demo_event "BOOKMARK" None "8") s));
      intros Hk; discriminate Hk.
Defined.

(** C6 as stated fails: after three streams that ended without an event
    the delay is 8, and a Deleted event, processed without an exception,
    leaves it at 8. *)
Lemma backoff_reset_counterexample :
  let failed := mkSession [] (Some (ApiException 403)) in
  let s := final (watch_source_configmap TARGET_CONFIGMAPS
                    (mkBootstrap None None) [failed; failed; failed])
                 (demo_sys demo_store) in
  let event := demo_event "DELETED" None "9" in
  result (handle_event TARGET_CONFIGMAPS event) s = Val tt
  ∧ var_backoff_time (final (handle_event TARGET_CONFIGMAPS event) s) = 8
  ∧ var_backoff_time (final (handle_event TARGET_CONFIGMAPS event) s) ≠ 1.
Proof.
  intros failed s event. split; [|split].
  - vm_compute. reflexivity.
  - vm_compute. reflexivity.
  - intros Heq. vm_compute in Heq. discriminate Heq.
Qed.

(** ** Backoff *)

Lemma backoff_after_quiet (evs : list Event) (b : Z) :
  forallb (λ e, negb (bool_decide (type e ∈ ["ADDED"; "MODIFIED"]))) evs
  = true →
  backoff_after evs b = b.
Proof.
  unfold backoff_after. revert b.
  induction evs as [|e evs IH]; intros b Hq; cbn in *; [done|].
  apply andb_prop in Hq as [He Hq].
  destruct (bool_decide (type e ∈ ["ADDED"; "MODIFIED"])); [done|].
  by apply IH.
Qed.

Lemma capped_double_succ (k : nat) :
  Z.min (capped_double k * 2) 60 = capped_double (S k).
Proof.
  unfold capped_double. rewrite Nat2Z.inj_succ, Z.pow_succ_r by lia.
  assert (0 < 2 ^ Z.of_nat k) by (apply Z.pow_pos_nonneg; lia). lia.
Qed.

Lemma delays_from_quiet (sessions : list Session) (k : nat) :
  forallb quiet sessions = true →
  delays_from (capped_double k) sessions
  = map capped_double (seq k (length sessions)).
Proof.
  revert k. induction sessions as [|sess rest IH]; intros k Hq; [done|].
  cbn in Hq. apply andb_prop in Hq as [Hs Hq].
  cbn [delays_from length seq map].
  rewrite (backoff_after_quiet _ _ Hs), capped_double_succ, IH by done.
  done.
Qed.

(** C5 fails on the code for a stream that ends in a transport error:
    three streams without events that each end in urllib3's MaxRetryError
    give no delay at all, because the first one leaves the function with
    the AttributeError of the second clause, where the claim has 1, 2, 4;
    the same three streams ending in an ApiException give 1, 2, 4. *)
Theorem backoff_lost_on_transport_error :
  let lost := mkSession [] (Some MaxRetryError) in
  let refused := mkSession [] (Some (ApiException 403)) in
  let run sessions :=
    watch_source_configmap TARGET_CONFIGMAPS (mkBootstrap None None)
                           sessions in
  result (run [lost; lost; lost]) (demo_sys demo_store) = Raise AttributeError
  ∧ sleeps (final (run [lost; lost; lost]) (demo_sys demo_store)) = []
  ∧ opens (final (run [lost; lost; lost]) (demo_sys demo_store)) = [None]
  ∧ result (run [refused; refused; refused]) (demo_sys demo_store)
    = Val Looping
  ∧ sleeps (final (run [refused; refused; refused]) (demo_sys demo_store))
    = [1; 2; 4].
Proof.
  intros lost refused run. repeat split; vm_compute; reflexivity.
Qed.

(** ** Cursor *)

Lemma cursors_from_length (c : option string) (sessions : list Session) :
  length (cursors_from c sessions) = length sessions.
Proof.
  revert c. induction sessions as [|sess rest IH]; intros c; cbn; [done|].
  by rewrite IH.
Qed.

Lemma cursors_from_app (c : option string) (pre rest : list Session) :
  ∃ c', cursors_from c (pre ++ rest)
        = cursors_from c pre ++ cursors_from c' rest.
Proof.
  revert c. induction pre as [|sess pre IH]; intros c; cbn.
  - by exists c.
  - destruct (IH (cursor_after (events sess) c)) as [c' ->]. by exists c'.
Qed.

Lemma cursor_after_last (evs : list Event) (e : Event) (c : option string) :
  cursor_after (evs ++ [e]) c = event_cursor e.
Proof. unfold cursor_after. by rewrite fold_left_app. Qed.

(** C7: every event, of whatever kind, moves the cursor to the one it
    carries; the first stream is opened with no cursor; and a stream
    opened after one whose last event was [e] is opened with the cursor of
    [e]: whenever that open takes place its cursor is the one of [e], and
    it does take place when the streams before it ended by exhaustion or
    in an ApiException. *)
Theorem cursor_follows_last_event {W} `{CoreV1Api W}
    (targets : list Target) :
  (∀ (event : Event) (s : Sys W),
     var_resource_version (final (handle_event targets event) s)
     = event_cursor event)
  ∧ (∀ (b : Bootstrap) (sess : Session) (rest : list Session) (s : Sys W),
       load_incluster_config b = None → make_client b = None →
       opens (final (watch_source_configmap targets b (sess :: rest)) s)
         !! length (opens s)
       = Some None)
  ∧ (∀ (b : Bootstrap) (pre : list Session) (sess next : Session)
       (post : list Session) (evs : list Event) (e : Event) (s : Sys W),
       load_incluster_config b = None → make_client b = None →
       events sess = evs ++ [e] →
       (∀ c, opens (final (watch_source_configmap targets b
                             (pre ++ sess :: next :: post)) s)
               !! (length (opens s) + S (length pre))%nat = Some c →
             c = event_cursor e)
       ∧ (forallb handled (pre ++ [sess]) = true →
          opens (final (watch_source_configmap targets b
                          (pre ++ sess :: next :: post)) s)
            !! (length (opens s) + S (length pre))%nat
          = Some (event_cursor e))).
Proof.
  split; [|split].
  - intros event s.
    by destruct (handle_event_spec targets event s) as (_ & _ & _ & _ & ? & _).
  - intros b sess rest s Hl Hc.
    destruct (watch_started_spec targets b (sess :: rest) s Hl Hc)
      as (_ & _ & -> & _).
    rewrite lookup_app_r by lia. rewrite Nat.sub_diag.
    cbn. by destruct (handled sess).
  - intros b pre sess next post evs e s Hl Hc Hev.
    destruct (watch_started_spec targets b (pre ++ sess :: next :: post) s
                Hl Hc) as (_ & _ & -> & _).
    assert (Hall : ∀ tl, cursors_from None (pre ++ sess :: next :: tl)
                           !! S (length pre) = Some (event_cursor e)).
    { intros tl.
      destruct (cursors_from_app None pre (sess :: next :: tl)) as [c' ->].
      rewrite lookup_app_r by (rewrite cursors_from_length; lia).
      rewrite cursors_from_length.
      replace (S (length pre) - length pre)%nat with 1%nat by lia.
      cbn. by rewrite Hev, cursor_after_last. }
    rewrite lookup_app_r by lia.
    replace (length (opens s) + S (length pre) - length (opens s))%nat
      with (S (length pre)) by lia.
    split.
    + intros c Hc'.
      destruct (opened_is_prefix (pre ++ sess :: next :: post)) as [k Hk].
      rewrite Hk, cursors_from_take in Hc'.
      apply lookup_take_Some in Hc' as [Hc' _].
      rewrite Hall in Hc'. congruence.
    + intros Hh.
      replace (pre ++ sess :: next :: post)
        with ((pre ++ [sess]) ++ next :: post)
        by (by rewrite <- app_assoc).
      destruct (reached_app (pre ++ [sess]) (next :: post) Hh) as [-> _].
      destruct (opened_cons next post) as [tl ->].
      rewrite <- app_assoc. apply Hall.
Qed.

Lemma cursor_follows_last_event_witness :
  let first := mkSession [demo_event "ADDED" (Some {[ "a" := "1" ]}) "100";
                          demo_event "DELETED" None "101"]
                         (Some (ApiException 410)) in
  let second := mkSession [] None in
  opens (final (watch_source_configmap TARGET_CONFIGMAPS
                  (mkBootstrap None None) [first; second])
               (demo_sys demo_store)) !! 1%nat
  = Some (Some "101").
Proof.
  intros first second.
  apply (proj2 (proj2 (cursor_follows_last_event TARGET_CONFIGMAPS))
           (mkBootstrap None None) [] first second []
           [demo_event "ADDED" (Some {[ "a" := "1" ]}) "100"]
           (demo_event "DELETED" None "101") (demo_sys demo_store));
    reflexivity.
Defined.

(** ** Classification *)

Lemma event_calls_sync (targets : list Target) (e : Event)
    (d : gmap string string) :
  type e ∈ ["ADDED"; "MODIFIED"] → data (object e) = Some d → d ≠ ∅ →
  event_calls targets e = map (call_for d) targets.
Proof.
  intros Ht Hd Hne. unfold event_calls.
  by rewrite (bool_decide_eq_true_2 _ Ht), Hd, (bool_decide_eq_false_2 _ Hne).
Qed.

(** C8: an Added or Modified event always runs the sync pass on the data it
    carries, whatever the state: nothing is compared with an earlier
    snapshot, and the same event processed twice patches every target
    twice.  An event of a kind other than Added, Modified and Deleted only
    adds one DEBUG record to the log (and moves the cursor). *)
Theorem added_modified_always_replicate {W} `{CoreV1Api W}
    (targets : list Target) (event : Event) (s : Sys W) :
  (type event = "ADDED" ∨ type event = "MODIFIED" →
   handle_event targets event s
   = (set_resource_version (event_cursor event) >>
      sync_configmap_data targets (data (object event)) >>
      set_backoff_time 1) s
   ∧ ∀ d, data (object event) = Some d → d ≠ ∅ →
       patches (final (handle_event targets event >>
                       handle_event targets event) s)
       = patches s ++ map (call_for d) targets ++ map (call_for d) targets)
  ∧ (type event ≠ "ADDED" → type event ≠ "MODIFIED" →
     type event ≠ "DELETED" →
     handle_event targets event s
     = (Val tt,
        mkSys (world s) (log s ++ [(DEBUG, IgnoredEventType (type event))])
              (patches s) (opens s) (sleeps s) (event_cursor event)
              (var_backoff_time s))).
Proof.
  split.
  - intros Hty%sync_kind_elem. split.
    + unfold handle_event. by rewrite (bool_decide_eq_true_2 _ Hty).
    + intros d Hd Hne.
      pose proof (handle_event_spec targets event s) as H1.
      pose proof (handle_event_spec targets event
                    (final (handle_event targets event) s)) as H2.
      destruct (runs_to_bind _ _ _ _ _ _ _ _ _ _ _ _ _ H1 H2) as (_ & -> & _).
      by rewrite (event_calls_sync targets event d Hty Hd Hne).
  - intros Ha Hm Hd. unfold handle_event, bind. cbn.
    rewrite bool_decide_eq_false_2 by (rewrite <- sync_kind_elem; tauto).
    by rewrite bool_decide_eq_false_2 by done.
Qed.

Lemma added_modified_always_replicate_witness :
  let s := demo_sys demo_store in
  let d : gmap string string := {[ "a" := "0"; "b" := "2" ]} in
  patches (final (handle_event TARGET_CONFIGMAPS
                    (demo_event "MODIFIED" (Some d) "12") >>
                  handle_event TARGET_CONFIGMAPS
                    (demo_event "MODIFIED" (Some d) "12")) s)
  = patches s ++ map (call_for d) TARGET_CONFIGMAPS
              ++ map (call_for d) TARGET_CONFIGMAPS.
Proof.
  intros s d.
  apply (proj1 (added_modified_always_replicate TARGET_CONFIGMAPS
                  (demo_event "MODIFIED" (Some d) "12") s)).
  - right. reflexivity.
  - reflexivity.
  - intros Hd. apply (f_equal (λ m : gmap string string, m !! "a")) in Hd.
    vm_compute in Hd. discriminate Hd.
Defined.

(** ** Start and stop *)

(** C9 fails on the code once the loop is entered: a stream that ends in
    an exception other than ApiException, here urllib3's MaxRetryError,
    is not contained.  Its events are processed, then the AttributeError
    raised while the second clause is matched leaves [while True] and the
    function: no delay is slept and the next stream is never opened. *)
Theorem transport_error_leaves_the_loop :
  let d : gmap string string := {[ "a" := "1" ]} in
  let sessions := [mkSession [demo_event "ADDED" (Some d) "5"]
                             (Some MaxRetryError);
                   mkSession [] None] in
  let m := watch_source_configmap TARGET_CONFIGMAPS (mkBootstrap None None)
                                  sessions in
  result m (demo_sys demo_store) = Raise AttributeError
  ∧ opens (final m (demo_sys demo_store)) = [None]
  ∧ sleeps (final m (demo_sys demo_store)) = []
  ∧ patches (final m (demo_sys demo_store))
    = map (call_for d) TARGET_CONFIGMAPS
  ∧ stream_errors (log (final m (demo_sys demo_store))) = [].
Proof.
  intros d sessions m. repeat split; vm_compute; reflexivity.
Qed.

(** ** Per-target failures *)

(** C4: the sync pass never raises, and with a non-empty snapshot it makes
    one patch call per target, in order, whatever each call meets.  In
    particular, against the store, when the first of two targets does not
    exist and the second does, the first is logged as not found and the
    second is patched. *)
Theorem target_failure_is_isolated :
  (∀ (W : Type) (client : CoreV1Api W) (targets : list Target)
     (source_data : option (gmap string string)) (s : Sys W),
     result (sync_configmap_data targets source_data) s = Val tt
     ∧ ∀ d, source_data = Some d → d ≠ ∅ →
         patches (final (sync_configmap_data targets source_data) s)
         = patches s ++ map (call_for d) targets)
  ∧ (∀ (T1 T2 : Target) (d : gmap string string) (cm : ConfigMap)
       (s : Sys ApiServer),
       d ≠ ∅ →
       faults (world s) !! target_key T1 = None →
       objects (world s) !! target_key T1 = None →
       faults (world s) !! target_key T2 = None →
       objects (world s) !! target_key T2 = Some cm →
       result (sync_configmap_data [T1; T2] (Some d)) s = Val tt
       ∧ data_of (world (final (sync_configmap_data [T1; T2] (Some d)) s)) T2
         = Some d
       ∧ log (final (sync_configmap_data [T1; T2] (Some d)) s)
         = log s ++ [(INFO, SyncingTo 2);
                     (ERROR, TargetNotFound (target_ns T1) (target_name T1));
                     (INFO, SyncedTo (target_ns T2) (target_name T2))]).
Proof.
  split.
  - intros W client targets source_data s.
    destruct (sync_configmap_data_spec targets source_data s)
      as (Hr & Hp & _).
    split; [exact Hr|]. intros d -> Hne. rewrite Hp.
    by rewrite (bool_decide_eq_false_2 _ Hne).
  - intros T1 T2 d cm s Hne Hf1 Ho1 Hf2 Ho2.
    unfold result, final, data_of, sync_configmap_data, falsy.
    rewrite (bool_decide_eq_false_2 _ Hne).
    unfold target_key in *.
    unfold for_each, sync_target, try_except, bind, call_patch. cbn.
    unfold api_patch. rewrite Hf1, Ho1. cbn.
    rewrite Hf2, Ho2. cbn.
    rewrite lookup_insert_eq, <- !app_assoc. done.
Qed.

Lemma target_failure_is_isolated_witness :
  let absent_first := [mkTarget "config-0" "dev"; mkTarget "config-2" "stage"] in
  let d : gmap string string := {[ "a" := "1" ]} in
  data_of (world (final (sync_configmap_data absent_first (Some d))
                        (demo_sys demo_store)))
          (mkTarget "config-2" "stage")
  = Some d.
Proof.
  intros absent_first d.
  apply (proj2 target_failure_is_isolated
           (mkTarget "config-0" "dev") (mkTarget "config-2" "stage") d
           (mkConfigMap {[ "a" := "0"; "b" := "2" ]} {[ "team" := "x" ]})
           (demo_sys demo_store)).
  - intros Hd. apply (f_equal (λ m : gmap string string, m !! "a")) in Hd.
    vm_compute in Hd. discriminate Hd.
  - reflexivity.
  - reflexivity.
  - reflexivity.
  - vm_compute. reflexivity.
Defined.

(** ** Full replace *)

(** C1, as the code has it: after an Added or Modified event with a
    non-empty snapshot [d], a target whose patch request the store accepts
    holds exactly [d] in its data field, so that a key it held and [d]
    lacks is gone, and keeps its other fields; a target whose request is
    refused, or that does not exist, is as it was. *)
Theorem accepted_patch_replaces_data (targets : list Target) (event : Event)
    (d : gmap string string) (s : Sys ApiServer) (t : Target) :
  type event = "ADDED" ∨ type event = "MODIFIED" →
  data (object event) = Some d → d ≠ ∅ → t ∈ targets →
  (∀ cm, faults (world s) !! target_key t = None →
         objects (world s) !! target_key t = Some cm →
         objects (world (final (handle_event targets event) s))
           !! target_key t = Some (replace_data d cm)
         ∧ data_of (world (final (handle_event targets event) s)) t = Some d
         ∧ ∀ k, d !! k = None →
             data_of (world (final (handle_event targets event) s)) t
               ≫= (λ m, m !! k) = None)
  ∧ (faults (world s) !! target_key t ≠ None
     ∨ objects (world s) !! target_key t = None →
     objects (world (final (handle_event targets event) s)) !! target_key t
     = objects (world s) !! target_key t).
Proof.
  intros Hty%sync_kind_elem Hd Hne Hin.
  rewrite (handle_event_world targets event d s Hty Hd Hne).
  unfold data_of. rewrite fold_patched_lookup.
  assert (Hk : target_key t ∈ map target_key targets)
    by (by apply list_elem_of_fmap_2).
  split.
  - intros cm Hf Ho. rewrite decide_True by done. rewrite Ho. cbn.
    split; [done|]. split; [done|]. intros k Hdk. exact Hdk.
  - intros [Hf|Ho].
    + rewrite decide_False; [done|]. intros [_ Hf']. by apply Hf.
    + rewrite Ho. by case_decide.
Qed.

Lemma accepted_patch_replaces_data_witness :
  let d : gmap string string := {[ "a" := "1" ]} in
  let event := demo_event "MODIFIED" (Some d) "77" in
  data_of (world (final (handle_event TARGET_CONFIGMAPS event)
                        (demo_sys refusing_store)))
          (mkTarget "config-2" "stage")
  = Some d.
Proof.
  intros d event.
  assert (Hne : d ≠ ∅).
  { intros Hd. apply (f_equal (λ m : gmap string string, m !! "a")) in Hd.
    vm_compute in Hd. discriminate Hd. }
  assert (Hin : mkTarget "config-2" "stage" ∈ TARGET_CONFIGMAPS).
  { apply list_elem_of_further, list_elem_of_here. }
  apply (proj1 (accepted_patch_replaces_data TARGET_CONFIGMAPS event d
                  (demo_sys refusing_store) (mkTarget "config-2" "stage")
                  (or_intror eq_refl) eq_refl Hne Hin)
           (mkConfigMap {[ "a" := "0"; "b" := "2" ]} {[ "team" := "x" ]})).
  - reflexivity.
  - vm_compute. reflexivity.
Defined.

(** C1 as stated fails: with the request on dev/config-1 refused (403),
    that target still holds its old data after the pass. *)
Lemma full_replace_counterexample :
  let d : gmap string string := {[ "a" := "1" ]} in
  let event := demo_event "MODIFIED" (Some d) "77" in
  result (handle_event TARGET_CONFIGMAPS event) (demo_sys refusing_store)
  = Val tt
  ∧ ¬ every_target_holds TARGET_CONFIGMAPS d
        (world (final (handle_event TARGET_CONFIGMAPS event)
                      (demo_sys refusing_store))).
Proof.
  intros d event. split; [vm_compute; reflexivity|].
  intros Hall.
  specialize (Hall (mkTarget "config-1" "dev") (list_elem_of_here _ _)).
  apply (f_equal (λ o : option (gmap string string), o ≫= (λ m, m !! "b")))
    in Hall.
  vm_compute in Hall. discriminate Hall.
Qed.

(** ** Further properties of the loop *)

(** *** Delays *)

Lemma backoff_after_range (evs : list Event) (b : Z) :
  in_backoff_range b → in_backoff_range (backoff_after evs b).
Proof.
  unfold backoff_after, in_backoff_range. revert b.
  induction evs as [|e evs IH]; intros b Hb; cbn; [done|].
  apply IH. destruct (bool_decide _); lia.
Qed.

Lemma delays_from_range (sessions : list Session) (b : Z) :
  in_backoff_range b → Forall in_backoff_range (delays_from b sessions).
Proof.
  revert b. induction sessions as [|sess rest IH]; intros b Hb; cbn.
  - constructor.
  - pose proof (backoff_after_range (events sess) b Hb) as Hd.
    constructor; [exact Hd|]. apply IH.
    unfold in_backoff_range in *. lia.
Qed.

(** Every delay the loop sleeps lies between 1 and 60 seconds, whatever
    the streams yield and however they end.  At most one delay is slept
    per stream, and exactly one when every stream ends by exhaustion or in
    an ApiException. *)
Theorem slept_delays_in_range {W} `{CoreV1Api W} (targets : list Target)
    (b : Bootstrap) (sessions : list Session) (s : Sys W) :
  load_incluster_config b = None → make_client b = None →
  ∃ slept,
    sleeps (final (watch_source_configmap targets b sessions) s)
    = sleeps s ++ slept
    ∧ (length slept ≤ length sessions)%nat
    ∧ (forallb handled sessions = true → length slept = length sessions)
    ∧ Forall in_backoff_range slept.
Proof.
  intros Hl Hc.
  destruct (watch_started_spec targets b sessions s Hl Hc) as (_ & _ & _ & ->).
  exists (delays_from 1 (completed sessions)).
  assert (Hlen : ∀ z l, length (delays_from z l) = length l).
  { intros z l. revert z. induction l as [|sess rest IH]; intros z; cbn;
      [done|]. by rewrite IH. }
  split; [done|]. split; [|split].
  - rewrite Hlen. apply completed_length.
  - intros Hh. rewrite Hlen.
    by destruct (all_handled_reached sessions Hh) as [_ ->].
  - apply delays_from_range. unfold in_backoff_range. lia.
Qed.

Lemma slept_delays_in_range_witness :
  ∃ slept,
    sleeps (final (watch_source_configmap TARGET_CONFIGMAPS
                     (mkBootstrap None None)
                     [mkSession [] (Some (ApiException 500));
                      mkSession [demo_event "ADDED" None "1"] None])
                  (demo_sys demo_store))
    = sleeps (demo_sys demo_store) ++ slept
    ∧ (length slept ≤ 2)%nat
    ∧ (forallb handled
         [mkSession [] (Some (ApiException 500));
          mkSession [demo_event "ADDED" None "1"] None] = true →
       length slept = 2%nat)
    ∧ Forall in_backoff_range slept.
Proof.
  apply (slept_delays_in_range TARGET_CONFIGMAPS (mkBootstrap None None)
           [mkSession [] (Some (ApiException 500));
            mkSession [demo_event "ADDED" None "1"] None]
           (demo_sys demo_store)); reflexivity.
Defined.

(** When every stream ends by exhaustion or in an ApiException and none
    yields an Added or Modified event, the delays slept after the
    successive streams are 1, 2, 4, 8, 16, 32, 60, 60, ...: the [k]-th is
    the smaller of [2^k] and 60. *)
Theorem backoff_doubles_to_cap {W} `{CoreV1Api W} (targets : list Target)
    (b : Bootstrap) (sessions : list Session) (s : Sys W) :
  load_incluster_config b = None → make_client b = None →
  forallb handled sessions = true →
  forallb quiet sessions = true →
  sleeps (final (watch_source_configmap targets b sessions) s)
  = sleeps s ++ map capped_double (seq 0 (length sessions)).
Proof.
  intros Hl Hc Hh Hq.
  destruct (watch_started_spec targets b sessions s Hl Hc) as (_ & _ & _ & ->).
  destruct (all_handled_reached sessions Hh) as [_ ->].
  by rewrite <- (delays_from_quiet sessions 0 Hq).
Qed.

Lemma backoff_doubles_to_cap_witness :
  let failed := mkSession [] (Some (ApiException 503)) in
  let timed_out := mkSession [demo_event "DELETED" None "3"] None in
  sleeps (final (watch_source_configmap TARGET_CONFIGMAPS
                   (mkBootstrap None None)
                   [failed; failed; timed_out; failed; failed; failed;
                    failed; timed_out; failed])
                (demo_sys demo_store))
  = [1; 2; 4; 8; 16; 32; 60; 60; 60].
Proof.
  intros failed timed_out.
  apply (backoff_doubles_to_cap TARGET_CONFIGMAPS (mkBootstrap None None)
           [failed; failed; timed_out; failed; failed; failed;
            failed; timed_out; failed]
           (demo_sys demo_store)); reflexivity.
Defined.

Lemma backoff_after_cases (evs : list Event) (b : Z) :
  backoff_after evs b
  = if existsb (λ e, bool_decide (type e ∈ ["ADDED"; "MODIFIED"])) evs
    then 1 else b.
Proof.
  unfold backoff_after. revert b.
  induction evs as [|e evs IH]; intros b; cbn; [done|].
  rewrite IH. destruct (bool_decide (type e ∈ ["ADDED"; "MODIFIED"])); cbn;
    [by destruct (existsb _ evs)|done].
Qed.

Lemma backoff_after_sync (evs : list Event) (b : Z) :
  existsb (λ e, bool_decide (type e ∈ ["ADDED"; "MODIFIED"])) evs = true →
  backoff_after evs b = 1.
Proof. intros Hex. by rewrite backoff_after_cases, Hex. Qed.

Lemma delays_from_app (b : Z) (pre rest : list Session) :
  ∃ b', delays_from b (pre ++ rest)
        = delays_from b pre ++ delays_from b' rest.
Proof.
  revert b. induction pre as [|sess pre IH]; intros b; cbn.
  - by exists b.
  - destruct (IH (Z.min (backoff_after (events sess) b * 2) 60)) as [b' ->].
    by exists b'.
Qed.

Lemma delays_from_length (b : Z) (sessions : list Session) :
  length (delays_from b sessions) = length sessions.
Proof.
  revert b. induction sessions as [|sess rest IH]; intros b; cbn; [done|].
  by rewrite IH.
Qed.

(** After a stream that yielded an Added or Modified event the loop sleeps
    1 second, however many streams had failed before it; and if the next
    stream yields no such event, the loop then sleeps 2 seconds: the end
    of a stream is backed off even when the stream was healthy.  All the
    streams up to there end by exhaustion or in an ApiException. *)
Theorem healthy_stream_sleeps_one {W} `{CoreV1Api W} (targets : list Target)
    (b : Bootstrap) (pre : list Session) (sess next : Session)
    (post : list Session) (s : Sys W) :
  load_incluster_config b = None → make_client b = None →
  forallb handled (pre ++ [sess; next]) = true →
  existsb (λ e, bool_decide (type e ∈ ["ADDED"; "MODIFIED"])) (events sess)
  = true →
  quiet next = true →
  sleeps (final (watch_source_configmap targets b
                   (pre ++ sess :: next :: post)) s)
    !! (length (sleeps s) + length pre)%nat = Some 1
  ∧ sleeps (final (watch_source_configmap targets b
                     (pre ++ sess :: next :: post)) s)
      !! (length (sleeps s) + S (length pre))%nat = Some 2.
Proof.
  intros Hl Hc Hh Hex Hq.
  destruct (watch_started_spec targets b (pre ++ sess :: next :: post) s
              Hl Hc) as (_ & _ & _ & ->).
  replace (pre ++ sess :: next :: post)
    with ((pre ++ [sess; next]) ++ post)
    by (by rewrite <- app_assoc).
  destruct (reached_app (pre ++ [sess; next]) post Hh) as [_ ->].
  rewrite <- app_assoc. cbn [app].
  destruct (delays_from_app 1 pre (sess :: next :: completed post))
    as [b' ->].
  rewrite !lookup_app_r by (rewrite ?length_app, ?delays_from_length; lia).
  rewrite delays_from_length.
  replace (length (sleeps s) + length pre - length (sleeps s) - length pre)%nat
    with 0%nat by lia.
  replace (length (sleeps s) + S (length pre) - length (sleeps s)
           - length pre)%nat with 1%nat by lia.
  cbn. rewrite (backoff_after_sync _ _ Hex).
  rewrite (backoff_after_quiet _ _ Hq). done.
Qed.

Lemma healthy_stream_sleeps_one_witness :
  let failed := mkSession [] (Some (ApiException 500)) in
  let healthy := mkSession [demo_event "MODIFIED" (Some {[ "a" := "1" ]}) "8";
                            demo_event "DELETED" None "9"] None in
  sleeps (final (watch_source_configmap TARGET_CONFIGMAPS
                   (mkBootstrap None None)
                   ([failed; failed; failed] ++ healthy :: failed :: []))
                (demo_sys demo_store)) !! 3%nat = Some 1
  ∧ sleeps (final (watch_source_configmap TARGET_CONFIGMAPS
                     (mkBootstrap None None)
                     ([failed; failed; failed] ++ healthy :: failed :: []))
                  (demo_sys demo_store)) !! 4%nat = Some 2.
Proof.
  intros failed healthy.
  apply (healthy_stream_sleeps_one TARGET_CONFIGMAPS (mkBootstrap None None)
           [failed; failed; failed] healthy failed [] (demo_sys demo_store));
    reflexivity.
Defined.

Lemma delays_from_events (b : Z) (sessions sessions' : list Session) :
  map events sessions = map events sessions' →
  delays_from b sessions = delays_from b sessions'.
Proof.
  revert b sessions'.
  induction sessions as [|sess rest IH]; intros b [|sess' rest'] Hev;
    try done.
  cbn in *. injection Hev as Hhd Htl. rewrite Hhd. f_equal. by apply IH.
Qed.

Lemma cursors_from_events (c : option string)
    (sessions sessions' : list Session) :
  map events sessions = map events sessions' →
  cursors_from c sessions = cursors_from c sessions'.
Proof.
  revert c sessions'.
  induction sessions as [|sess rest IH]; intros c [|sess' rest'] Hev;
    try done.
  cbn in *. injection Hev as Hhd Htl. rewrite Hhd. f_equal. by apply IH.
Qed.

Lemma flat_map_events (sessions sessions' : list Session) :
  map events sessions = map events sessions' →
  flat_map events sessions = flat_map events sessions'.
Proof.
  revert sessions'.
  induction sessions as [|sess rest IH]; intros [|sess' rest'] Hev; try done.
  cbn in *. injection Hev as Hhd Htl. rewrite Hhd. f_equal. by apply IH.
Qed.

(** Between a stream that runs out and one that raises an ApiException
    the loop makes no difference: two runs whose streams yield the same
    events and all end in one of these two ways sleep the same delays,
    open their streams with the same cursors and make the same patch
    calls.  A clean timeout is backed off like a refused request. *)
Theorem termination_kind_is_not_distinguished {W} `{CoreV1Api W}
    (targets : list Target) (b : Bootstrap)
    (sessions sessions' : list Session) (s : Sys W) :
  load_incluster_config b = None → make_client b = None →
  forallb handled sessions = true → forallb handled sessions' = true →
  map events sessions = map events sessions' →
  sleeps (final (watch_source_configmap targets b sessions) s)
  = sleeps (final (watch_source_configmap targets b sessions') s)
  ∧ opens (final (watch_source_configmap targets b sessions) s)
    = opens (final (watch_source_configmap targets b sessions') s)
  ∧ patches (final (watch_source_configmap targets b sessions) s)
    = patches (final (watch_source_configmap targets b sessions') s).
Proof.
  intros Hl Hc Hh Hh' Hev.
  destruct (watch_started_spec targets b sessions s Hl Hc)
    as (_ & -> & -> & ->).
  destruct (watch_started_spec targets b sessions' s Hl Hc)
    as (_ & -> & -> & ->).
  destruct (all_handled_reached sessions Hh) as [-> ->].
  destruct (all_handled_reached sessions' Hh') as [-> ->].
  by rewrite (delays_from_events _ _ _ Hev), (cursors_from_events _ _ _ Hev),
    (flat_map_events _ _ Hev).
Qed.

Lemma termination_kind_is_not_distinguished_witness :
  let evs := [demo_event "DELETED" None "4"] in
  sleeps (final (watch_source_configmap TARGET_CONFIGMAPS
                   (mkBootstrap None None)
                   [mkSession evs None; mkSession [] None])
                (demo_sys demo_store))
  = sleeps (final (watch_source_configmap TARGET_CONFIGMAPS
                     (mkBootstrap None None)
                     [mkSession evs (Some (ApiException 410));
                      mkSession [] (Some (ApiException 403))])
                  (demo_sys demo_store)).
Proof.
  intros evs.
  apply (termination_kind_is_not_distinguished TARGET_CONFIGMAPS
           (mkBootstrap None None)
           [mkSession evs None; mkSession [] None]
           [mkSession evs (Some (ApiException 410));
            mkSession [] (Some (ApiException 403))]
           (demo_sys demo_store)); reflexivity.
Defined.

(** A stream that ends in any exception other than ApiException ends the
    run: its events are processed, then the function is left with the
    AttributeError raised while the second clause is matched.  No delay is
    slept for that stream and no later stream is opened. *)
Theorem unhandled_stream_error_ends_the_run {W} `{CoreV1Api W}
    (targets : list Target) (b : Bootstrap) (pre : list Session)
    (sess : Session) (post : list Session) (s : Sys W) :
  load_incluster_config b = None → make_client b = None →
  forallb handled pre = true → handled sess = false →
  result (watch_source_configmap targets b (pre ++ sess :: post)) s
  = Raise AttributeError
  ∧ opens (final (watch_source_configmap targets b (pre ++ sess :: post)) s)
    = opens s ++ cursors_from None (pre ++ [sess])
  ∧ sleeps (final (watch_source_configmap targets b (pre ++ sess :: post)) s)
    = sleeps s ++ delays_from 1 pre
  ∧ patches (final (watch_source_configmap targets b (pre ++ sess :: post)) s)
    = patches s
      ++ flat_map (event_calls targets) (flat_map events (pre ++ [sess])).
Proof.
  intros Hl Hc Hpre Hsess.
  destruct (watch_started_spec targets b (pre ++ sess :: post) s Hl Hc)
    as (-> & -> & -> & ->).
  destruct (reached_app pre (sess :: post) Hpre) as [-> ->].
  cbn [opened completed]. rewrite Hsess, app_nil_r.
  rewrite forallb_app, Hpre. cbn. by rewrite Hsess.
Qed.

Lemma unhandled_stream_error_ends_the_run_witness :
  let refused := mkSession [] (Some (ApiException 403)) in
  let lost := mkSession [demo_event "DELETED" None "6"]
                        (Some OtherException) in
  result (watch_source_configmap TARGET_CONFIGMAPS (mkBootstrap None None)
            ([refused; refused] ++ lost :: [refused]))
         (demo_sys demo_store)
  = Raise AttributeError.
Proof.
  intros refused lost.
  apply (unhandled_stream_error_ends_the_run TARGET_CONFIGMAPS
           (mkBootstrap None None) [refused; refused] lost [refused]
           (demo_sys demo_store)); reflexivity.
Defined.

(** When the client cannot be built the function returns at once: the
    failure is logged at CRITICAL (after the line that reports the loaded
    configuration, if it was the client and not the configuration that
    failed), and there is no stream opened, no patch call, no sleep and
    no change to the store. *)
Theorem bootstrap_failure_returns {W} `{CoreV1Api W} (targets : list Target)
    (b : Bootstrap) (e : Exn) (sessions : list Session) (s : Sys W) :
  load_incluster_config b = Some e
  ∨ (load_incluster_config b = None ∧ make_client b = Some e) →
  result (watch_source_configmap targets b sessions) s = Val Returned
  ∧ log (final (watch_source_configmap targets b sessions) s)
    = log s
      ++ match load_incluster_config b with
         | None => [(INFO, ConfigLoaded)]
         | Some _ => []
         end
      ++ [(CRITICAL, InitFailed e)]
  ∧ world (final (watch_source_configmap targets b sessions) s) = world s
  ∧ patches (final (watch_source_configmap targets b sessions) s) = patches s
  ∧ opens (final (watch_source_configmap targets b sessions) s) = opens s
  ∧ sleeps (final (watch_source_configmap targets b sessions) s) = sleeps s.
Proof.
  unfold watch_source_configmap, initialise, result, final, try_except, bind.
  intros [-> | [-> ->]]; cbn; rewrite <- ?app_assoc; done.
Qed.

Lemma bootstrap_failure_returns_witness :
  result (watch_source_configmap TARGET_CONFIGMAPS
            (mkBootstrap None (Some OtherException))
            [mkSession [demo_event "ADDED" (Some {[ "a" := "1" ]}) "5"] None])
         (demo_sys demo_store)
  = Val Returned.
Proof.
  apply (bootstrap_failure_returns TARGET_CONFIGMAPS
           (mkBootstrap None (Some OtherException)) OtherException
           [mkSession [demo_event "ADDED" (Some {[ "a" := "1" ]}) "5"] None]
           (demo_sys demo_store)).
  right. split; reflexivity.
Defined.

(** *** Patch calls *)

Lemma event_calls_cases (targets : list Target) (e : Event) :
  event_calls targets e
  = if patching e
    then match data (object e) with
         | Some d => map (call_for d) targets
         | None => []
         end
    else [].
Proof.
  unfold event_calls, patching, falsy.
  destruct (bool_decide (type e ∈ ["ADDED"; "MODIFIED"])); cbn; [|done].
  destruct (data (object e)) as [d|]; [|done].
  by destruct (bool_decide (d = ∅)).
Qed.

Lemma event_calls_well_formed (targets : list Target) (e : Event) :
  Forall (λ c, body_data (call_body c) ≠ ∅
               ∧ ∃ t, t ∈ targets
                      ∧ call_name c = target_name t
                      ∧ call_namespace c = target_ns t)
         (event_calls targets e).
Proof.
  unfold event_calls.
  destruct (bool_decide (type e ∈ ["ADDED"; "MODIFIED"])); [|constructor].
  destruct (data (object e)) as [d|]; [|constructor].
  destruct (bool_decide (d = ∅)) eqn:Hd; [constructor|].
  apply bool_decide_eq_false in Hd.
  apply Forall_forall. intros c Hc.
  apply list_elem_of_fmap in Hc as (t & -> & Ht).
  split; [done|]. by exists t.
Qed.

(** The loop never patches anything but a configured target, and never
    sends an empty data field: every patch call of a run names one of the
    targets and carries a non-empty snapshot. *)
Theorem only_targets_are_patched {W} `{CoreV1Api W} (targets : list Target)
    (b : Bootstrap) (sessions : list Session) (s : Sys W) :
  ∃ calls,
    patches (final (watch_source_configmap targets b sessions) s)
    = patches s ++ calls
    ∧ Forall (λ c, body_data (call_body c) ≠ ∅
                   ∧ ∃ t, t ∈ targets
                          ∧ call_name c = target_name t
                          ∧ call_namespace c = target_ns t)
             calls.
Proof.
  destruct (load_incluster_config b) as [e|] eqn:Hl;
    [|destruct (make_client b) as [e|] eqn:Hc].
  - exists []. rewrite app_nil_r. split; [|constructor].
    apply watch_not_started_spec. left. by rewrite Hl.
  - exists []. rewrite app_nil_r. split; [|constructor].
    apply watch_not_started_spec. right. by rewrite Hc.
  - destruct (watch_started_spec targets b sessions s Hl Hc)
      as (_ & -> & _).
    eexists. split; [done|].
    induction (flat_map events (opened sessions)) as [|ev evs IH]; cbn;
      [constructor|].
    apply Forall_app. split; [apply event_calls_well_formed|exact IH].
Qed.

Lemma patch_count (targets : list Target) (evs : list Event) :
  length (flat_map (event_calls targets) evs)
  = (length (filter (λ e, patching e = true) evs) * length targets)%nat.
Proof.
  induction evs as [|e evs IH]; [done|].
  cbn [flat_map]. rewrite length_app, IH, event_calls_cases.
  destruct (patching e) eqn:Hp.
  - rewrite filter_cons_True by done. cbn [length].
    unfold patching, falsy in Hp.
    destruct (data (object e)) as [d|].
    + rewrite length_map. lia.
    + by rewrite andb_false_r in Hp.
  - rewrite filter_cons_False by (by rewrite Hp). done.
Qed.

(** A run makes one patch call per target for every Added or Modified
    event that carries data, among the events of the streams it gets to
    open, and no other: the number of calls is the number of such events
    times the number of targets. *)
Theorem patch_calls_are_counted {W} `{CoreV1Api W} (targets : list Target)
    (b : Bootstrap) (sessions : list Session) (s : Sys W) :
  load_incluster_config b = None → make_client b = None →
  length (patches (final (watch_source_configmap targets b sessions) s))
  = (length (patches s)
     + length (filter (λ e, patching e = true)
                      (flat_map events (opened sessions)))
       * length targets)%nat.
Proof.
  intros Hl Hc.
  destruct (watch_started_spec targets b sessions s Hl Hc) as (_ & -> & _).
  by rewrite length_app, patch_count.
Qed.

Lemma patch_calls_are_counted_witness :
  let d : gmap string string := {[ "a" := "1" ]} in
  length (patches
            (final (watch_source_configmap TARGET_CONFIGMAPS
                      (mkBootstrap None None)
                      [mkSession [demo_event "ADDED" (Some d) "1";
                                  demo_event "MODIFIED" (Some ∅) "2";
                                  demo_event "DELETED" (Some d) "3"]
                                 (Some MaxRetryError);
                       mkSession [demo_event "MODIFIED" (Some d) "4"] None])
                   (demo_sys refusing_store)))
  = 2%nat.
Proof.
  intros d.
  etransitivity.
  - apply (patch_calls_are_counted TARGET_CONFIGMAPS (mkBootstrap None None)
             [mkSession [demo_event "ADDED" (Some d) "1";
                         demo_event "MODIFIED" (Some ∅) "2";
                         demo_event "DELETED" (Some d) "3"]
                        (Some MaxRetryError);
              mkSession [demo_event "MODIFIED" (Some d) "4"] None]
             (demo_sys refusing_store)); reflexivity.
  - vm_compute. reflexivity.
Defined.

(** *** Cursor across streams without events *)

Lemma cursors_from_empty (c : option string) (gap rest : list Session) :
  Forall (λ g, events g = []) gap →
  cursors_from c (gap ++ rest) = replicate (length gap) c ++ cursors_from c rest.
Proof.
  induction 1 as [|g gap Hg _ IH]; cbn; [done|].
  rewrite Hg. cbn. by rewrite IH.
Qed.

Lemma lookup_replicate_then (c : option string) (k i : nat)
    (tl : list (option string)) :
  (i ≤ k)%nat → (replicate k c ++ c :: tl) !! i = Some c.
Proof.
  intros Hi. destruct (decide (i = k)) as [->|Hne].
  - rewrite lookup_app_r by (rewrite length_replicate; lia).
    by rewrite length_replicate, Nat.sub_diag.
  - rewrite lookup_app_l by (rewrite length_replicate; lia).
    apply lookup_replicate_2. lia.
Qed.

(** A stream that yields no event leaves the cursor where it was, whether
    it ran out or raised an ApiException: after a stream whose last event
    was [e], every following stream is opened with the cursor of [e] until
    one yields an event, and before the first event every stream is opened
    without a cursor.  A cursor the server refuses (410) is therefore
    presented again unchanged. *)
Theorem cursor_kept_across_empty_streams {W} `{CoreV1Api W}
    (targets : list Target) (b : Bootstrap) (gap : list Session)
    (next : Session) (post : list Session) (i : nat) (s : Sys W) :
  load_incluster_config b = None → make_client b = None →
  Forall (λ g, events g = []) gap → forallb handled gap = true →
  (i ≤ length gap)%nat →
  opens (final (watch_source_configmap targets b (gap ++ next :: post)) s)
    !! (length (opens s) + i)%nat = Some None
  ∧ ∀ (pre : list Session) (sess : Session) (evs : list Event) (e : Event),
      forallb handled (pre ++ [sess]) = true →
      events sess = evs ++ [e] →
      opens (final (watch_source_configmap targets b
                      (pre ++ sess :: gap ++ next :: post)) s)
        !! (length (opens s) + S (length pre) + i)%nat
      = Some (event_cursor e).
Proof.
  intros Hl Hc Hgap Hhgap Hi. split.
  - destruct (watch_started_spec targets b (gap ++ next :: post) s Hl Hc)
      as (_ & _ & -> & _).
    destruct (reached_app gap (next :: post) Hhgap) as [-> _].
    destruct (opened_cons next post) as [tl ->].
    rewrite lookup_app_r by lia.
    rewrite cursors_from_empty by done. cbn [cursors_from].
    replace (length (opens s) + i - length (opens s))%nat with i by lia.
    by apply lookup_replicate_then.
  - intros pre sess evs e Hh Hev.
    destruct (watch_started_spec targets b
                (pre ++ sess :: gap ++ next :: post) s Hl Hc)
      as (_ & _ & -> & _).
    replace (pre ++ sess :: gap ++ next :: post)
      with (((pre ++ [sess]) ++ gap) ++ next :: post)
      by (by rewrite <- !app_assoc).
    assert (Hall : forallb handled ((pre ++ [sess]) ++ gap) = true)
      by (by rewrite forallb_app, Hh, Hhgap).
    destruct (reached_app _ (next :: post) Hall) as [-> _].
    destruct (opened_cons next post) as [tl ->].
    rewrite <- !app_assoc. cbn [app].
    destruct (cursors_from_app None pre (sess :: gap ++ next :: tl))
      as [c' ->].
    rewrite lookup_app_r by lia.
    rewrite lookup_app_r by (rewrite cursors_from_length; lia).
    rewrite cursors_from_length.
    replace (length (opens s) + S (length pre) + i - length (opens s)
             - length pre)%nat with (S i) by lia.
    cbn [cursors_from lookup list_lookup].
    rewrite Hev, cursor_after_last, cursors_from_empty by done.
    cbn [cursors_from]. by apply lookup_replicate_then.
Qed.

Lemma cursor_kept_across_empty_streams_witness :
  let gone := mkSession [] (Some (ApiException 410)) in
  let first := mkSession [demo_event "MODIFIED" None "300"] None in
  opens (final (watch_source_configmap TARGET_CONFIGMAPS
                  (mkBootstrap None None)
                  ([] ++ first :: [gone; gone] ++ gone :: []))
               (demo_sys demo_store)) !! 3%nat
  = Some (Some "300").
Proof.
  intros gone first.
  assert (Hgap : Forall (λ g, events g = []) [gone; gone])
    by (repeat constructor).
  apply (proj2 (cursor_kept_across_empty_streams TARGET_CONFIGMAPS
                  (mkBootstrap None None) [gone; gone] gone [] 2
                  (demo_sys demo_store) eq_refl eq_refl Hgap eq_refl
                  (le_n 2))
           [] first [] (demo_event "MODIFIED" None "300")); reflexivity.
Defined.

(** *** The log *)

Lemma outcome_is_event_record (t : Target) (r : option Exn) :
  event_record (outcome_of t r) = true.
Proof.
  destruct r as [[st| | |]|]; cbn; [destruct (st =? 404)%Z|..]; done.
Qed.

Lemma pass_records_are_event_records {W} `{CoreV1Api W}
    (d : gmap string string) (ts : list Target) (w : W) :
  forallb event_record (pass_records d ts w) = true.
Proof.
  revert w. induction ts as [|t ts IH]; intros w; cbn; [done|].
  destruct (patch_namespaced_config_map _ _ _ w) as [r w']. cbn.
  by rewrite outcome_is_event_record, IH.
Qed.

Section Logs.
Context {W : Type} `{CoreV1Api W}.
Variable targets : list Target.

Lemma sync_target_log (d : gmap string string) (t : Target) (s : Sys W) :
  log (final (sync_target d t) s)
  = log s ++ [outcome_of t (fst (patch_namespaced_config_map
                                   (target_name t) (target_ns t)
                                   (mkBody d) (world s)))]
  ∧ world (final (sync_target d t) s)
    = snd (patch_namespaced_config_map (target_name t) (target_ns t)
                                       (mkBody d) (world s)).
Proof.
  unfold final, sync_target, try_except, bind, call_patch, outcome_of.
  destruct (patch_namespaced_config_map _ _ _ (world s)) as [[e|] w'];
    cbn; [|done].
  destruct e as [st| | |]; cbn; [destruct (st =? 404)%Z|..]; done.
Qed.

Lemma for_each_sync_log (d : gmap string string) (ts : list Target)
    (s : Sys W) :
  log (final (for_each ts (sync_target d)) s)
  = log s ++ pass_records d ts (world s).
Proof.
  revert s. induction ts as [|t ts IH]; intros s.
  - cbn. by rewrite app_nil_r.
  - destruct (sync_target_log d t s) as [Hlog Hw].
    destruct (sync_target_spec d t s) as (Hres & _).
    cbn [for_each pass_records]. rewrite final_bind by exact Hres.
    rewrite IH, Hlog, Hw.
    destruct (patch_namespaced_config_map _ _ _ (world s)) as [r w'].
    cbn. by rewrite <- app_assoc.
Qed.

Lemma sync_configmap_data_log (sd : option (gmap string string))
    (s : Sys W) :
  ∃ recs, log (final (sync_configmap_data targets sd) s) = log s ++ recs
          ∧ forallb event_record recs = true.
Proof.
  destruct sd as [d|]; cbn [sync_configmap_data falsy]; [|by eexists [_]].
  destruct (bool_decide (d = ∅)); [by eexists [_]|].
  exists ((INFO, SyncingTo (length targets))
          :: pass_records d targets (world s)).
  rewrite final_bind by done. rewrite for_each_sync_log. cbn.
  rewrite <- app_assoc. split; [done|].
  apply pass_records_are_event_records.
Qed.

Lemma handle_event_log (e : Event) (s : Sys W) :
  ∃ recs, log (final (handle_event targets e) s) = log s ++ recs
          ∧ forallb event_record recs = true.
Proof.
  unfold handle_event.
  set (s1 := final (set_resource_version (resource_version
                                            (metadata (object e)))) s).
  rewrite final_bind by done. fold s1.
  change (log s) with (log s1).
  destruct (bool_decide (type e ∈ ["ADDED"; "MODIFIED"])).
  - destruct (sync_configmap_data_log (data (object e)) s1)
      as (recs & Hlog & Hrecs).
    destruct (sync_configmap_data_spec targets (data (object e)) s1)
      as (Hres & _).
    exists recs. rewrite final_bind by exact Hres. by rewrite <- Hlog.
  - destruct (bool_decide (type e = "DELETED")); by eexists [_].
Qed.

Lemma events_log (evs : list Event) (s : Sys W) :
  ∃ recs, log (final (for_each evs (handle_event targets)) s) = log s ++ recs
          ∧ forallb event_record recs = true.
Proof.
  revert s. induction evs as [|e evs IH]; intros s.
  - exists []. cbn. by rewrite app_nil_r.
  - destruct (handle_event_log e s) as (r1 & Hlog & Hr1).
    destruct (IH (final (handle_event targets e) s)) as (r2 & Hlog' & Hr2).
    destruct (handle_event_spec targets e s) as (Hres & _).
    exists (r1 ++ r2). cbn [for_each]. rewrite final_bind by exact Hres.
    rewrite Hlog', Hlog, <- app_assoc. split; [done|].
    by rewrite forallb_app, Hr1, Hr2.
Qed.

(** What one iteration of the loop writes: the start line, the records of
    the events and, when the end of the stream is survived, the record of
    the first clause if it caught an ApiException and the line that
    announces the delay. *)
Lemma loop_iteration_log (sess : Session) (s : Sys W) :
  ∃ recs,
    forallb event_record recs = true
    ∧ log (final (loop_iteration targets sess) s)
      = log s ++ [(INFO, StartingWatch)] ++ recs
          ++ if handled sess
             then termination_records sess
                  ++ [(INFO, Disconnected
                               (backoff_after (events sess)
                                              (var_backoff_time s)))]
             else [].
Proof.
  set (s2 := final open_stream (final (logging INFO StartingWatch) s)).
  destruct (events_log (events sess) s2) as (recs & Hlog & Hrecs).
  destruct (events_spec targets (events sess) s2)
    as (Hres & _ & _ & _ & _ & Hb).
  exists recs. split; [exact Hrecs|].
  unfold loop_iteration, consume_stream, final, result, try_except, bind,
    handled, termination_records in *.
  cbn in *. fold s2 in Hres, Hlog, Hb |- *.
  destruct (for_each (events sess) (handle_event targets) s2) as [r s3].
  cbn in *. subst r.
  destruct (termination sess) as [[st| | |]|]; cbn;
    rewrite Hlog, ?Hb; cbn; rewrite <- ?app_assoc, ?app_nil_r; done.
Qed.

End Logs.

Lemma announced_delays_app (l1 l2 : list LogRecord) :
  announced_delays (l1 ++ l2) = announced_delays l1 ++ announced_delays l2.
Proof. apply omap_app. Qed.

Lemma stream_errors_app (l1 l2 : list LogRecord) :
  stream_errors (l1 ++ l2) = stream_errors l1 ++ stream_errors l2.
Proof. apply omap_app. Qed.

Lemma event_records_announce_nothing (recs : list LogRecord) :
  forallb event_record recs = true →
  announced_delays recs = [] ∧ stream_errors recs = [].
Proof.
  induction recs as [|[lv m] recs IH]; [done|].
  intros Hall. cbn in Hall. apply andb_prop in Hall as [Hm Hrecs].
  destruct (IH Hrecs) as [IH1 IH2].
  change ((lv, m) :: recs) with ([(lv, m)] ++ recs).
  rewrite announced_delays_app, stream_errors_app, IH1, IH2.
  unfold event_record in Hm. cbn in Hm. by destruct m.
Qed.


Lemma watch_loop_stream_errors {W} `{CoreV1Api W} (targets : list Target)
    (sessions : list Session) (s : Sys W) :
  stream_errors (log (final (watch_loop targets sessions) s))
  = stream_errors (log s) ++ omap termination (completed sessions).
Proof.
  revert s. induction sessions as [|sess rest IH]; intros s.
  - cbn. by rewrite app_nil_r.
  - destruct (loop_iteration_log targets sess s) as (recs & Hrecs & Hlog).
    destruct (event_records_announce_nothing recs Hrecs) as [_ Herr].
    cbn [watch_loop completed]. destruct (handled sess) eqn:Hh.
    + destruct (loop_iteration_spec targets sess s Hh) as (Hres & _).
      rewrite final_bind by exact Hres.
      rewrite IH, Hlog, !stream_errors_app, Herr.
      unfold handled, termination_records in *.
      destruct sess as [evs [[st| | |]|]]; try discriminate Hh; cbn;
        by rewrite <- ?app_assoc.
    + destruct (loop_iteration_raises targets sess s Hh) as (Hres & _).
      destruct (bind_raise _ (watch_loop targets rest) s AttributeError Hres)
        as [_ ->].
      rewrite Hlog, !stream_errors_app, Herr. cbn.
      by rewrite !app_nil_r.
Qed.

Lemma watch_started_final {W} `{CoreV1Api W} (targets : list Target)
    (b : Bootstrap) (sessions : list Session) (s : Sys W) :
  load_incluster_config b = None → make_client b = None →
  final (watch_source_configmap targets b sessions) s
  = final (watch_loop targets sessions)
          (mkSys (world s) (log s ++ [(INFO, ConfigLoaded)]) (patches s)
                 (opens s) (sleeps s) None 1).
Proof.
  intros Hl Hc.
  unfold watch_source_configmap, initialise. rewrite Hl, Hc.
  unfold final, try_except, bind. cbn.
  by destruct (watch_loop targets sessions _) as [[[]|e] s3].
Qed.

(** With a non-empty snapshot the pass writes its start line and then one
    record per target, in the order of the target list, each decided by
    what the client answered to that target's patch call: synced (INFO)
    when the call returned, not found (ERROR) for an ApiException with
    status 404, failed (ERROR) for an ApiException with any other status,
    unexpected (CRITICAL, without the target's name) for any other
    exception. *)
Theorem pass_logs_one_record_per_target {W} `{CoreV1Api W}
    (targets : list Target) (d : gmap string string) (s : Sys W) :
  d ≠ ∅ →
  log (final (sync_configmap_data targets (Some d)) s)
  = log s ++ (INFO, SyncingTo (length targets))
          :: pass_records d targets (world s).
Proof.
  intros Hne. unfold sync_configmap_data, falsy.
  rewrite (bool_decide_eq_false_2 _ Hne).
  rewrite final_bind by done. rewrite for_each_sync_log. cbn.
  by rewrite <- app_assoc.
Qed.

Lemma pass_logs_one_record_per_target_witness :
  let absent_first := [mkTarget "config-0" "dev"; mkTarget "config-1" "dev";
                       mkTarget "config-2" "stage"] in
  log (final (sync_configmap_data absent_first (Some {[ "a" := "1" ]}))
             (demo_sys refusing_store))
  = [(INFO, SyncingTo 3);
     (ERROR, TargetNotFound "dev" "config-0");
     (ERROR, PatchFailed "dev" "config-1" (ApiException 403));
     (INFO, SyncedTo "stage" "config-2")].
Proof.
  intros absent_first.
  etransitivity.
  - apply (pass_logs_one_record_per_target absent_first {[ "a" := "1" ]}
             (demo_sys refusing_store)).
    intros Hd. apply (f_equal (λ m : gmap string string, m !! "a")) in Hd.
    vm_compute in Hd. discriminate Hd.
  - vm_compute. reflexivity.
Defined.

(** The exceptions the log reports from the clauses around the stream are
    exactly the ApiExceptions that ended a stream, one record each and in
    order: a failed patch call is never reported as a failure of the
    stream, a stream that runs out leaves no error record, and neither
    does the stream whose exception ends the run. *)
Theorem stream_errors_are_the_terminations {W} `{CoreV1Api W}
    (targets : list Target) (b : Bootstrap) (sessions : list Session)
    (s : Sys W) :
  load_incluster_config b = None → make_client b = None →
  stream_errors (log (final (watch_source_configmap targets b sessions) s))
  = stream_errors (log s) ++ omap termination (completed sessions).
Proof.
  intros Hl Hc. rewrite watch_started_final by done.
  rewrite watch_loop_stream_errors. cbn [log].
  rewrite stream_errors_app. cbn. by rewrite app_nil_r.
Qed.

Lemma stream_errors_are_the_terminations_witness :
  stream_errors
    (log (final (watch_source_configmap TARGET_CONFIGMAPS
                   (mkBootstrap None None)
                   [mkSession [demo_event "ADDED" (Some {[ "a" := "1" ]}) "1"]
                              None;
                    mkSession [] (Some (ApiException 410));
                    mkSession [] (Some MaxRetryError)])
                (demo_sys refusing_store)))
  = [ApiException 410].
Proof.
  apply (stream_errors_are_the_terminations TARGET_CONFIGMAPS
           (mkBootstrap None None)
           [mkSession [demo_event "ADDED" (Some {[ "a" := "1" ]}) "1"] None;
            mkSession [] (Some (ApiException 410));
            mkSession [] (Some MaxRetryError)]
           (demo_sys refusing_store)); reflexivity.
Defined.



(** *** No feedback from the patch calls *)

(** What the patch calls meet has no influence on what the loop does next:
    two runs over the same streams, against any two clients and stores,
    make the same patch calls, open their streams with the same cursors
    and sleep the same delays.  A failed patch is not retried and does not
    touch the cursor or the delay. *)
Theorem patch_outcomes_do_not_feed_back {W1 W2 : Type}
    (client1 : CoreV1Api W1) (client2 : CoreV1Api W2)
    (targets : list Target) (b : Bootstrap) (sessions : list Session)
    (s1 : Sys W1) (s2 : Sys W2) :
  load_incluster_config b = None → make_client b = None →
  patches s1 = patches s2 → opens s1 = opens s2 → sleeps s1 = sleeps s2 →
  patches (final (watch_source_configmap targets b sessions) s1)
  = patches (final (watch_source_configmap targets b sessions) s2)
  ∧ opens (final (watch_source_configmap targets b sessions) s1)
    = opens (final (watch_source_configmap targets b sessions) s2)
  ∧ sleeps (final (watch_source_configmap targets b sessions) s1)
    = sleeps (final (watch_source_configmap targets b sessions) s2).
Proof.
  intros Hl Hc Hp Ho Hs.
  destruct (watch_started_spec targets b sessions s1 Hl Hc)
    as (_ & -> & -> & ->).
  destruct (watch_started_spec targets b sessions s2 Hl Hc)
    as (_ & -> & -> & ->).
  by rewrite Hp, Ho, Hs.
Qed.

Lemma patch_outcomes_do_not_feed_back_witness :
  let sessions :=
    [mkSession [demo_event "ADDED" (Some {[ "a" := "1" ]}) "1"]
               (Some (ApiException 403));
     mkSession [demo_event "MODIFIED" (Some {[ "a" := "2" ]}) "2"] None] in
  patches (final (watch_source_configmap TARGET_CONFIGMAPS
                    (mkBootstrap None None) sessions)
                 (demo_sys demo_store))
  = patches (final (watch_source_configmap TARGET_CONFIGMAPS
                      (mkBootstrap None None) sessions)
                   (demo_sys refusing_store)).
Proof.
  intros sessions.
  apply (patch_outcomes_do_not_feed_back api_server_client api_server_client
           TARGET_CONFIGMAPS (mkBootstrap None None) sessions
           (demo_sys demo_store) (demo_sys refusing_store));
    reflexivity.
Defined.
